(** * dynamotree: hierarchical storage on a key/range table

    A shallow embedding of [dynamodb.go] and [tree.go] of crewjam/dynamotree,
    and the properties of the path encoding, the batch writer and the link
    resolver that its specification states.

    Go strings are byte strings: they are modelled by [string], whose
    characters are the 256 bytes of [ascii].  Go maps are modelled by
    stdpp's [gmap]. *)

From Stdlib Require Import Strings.Ascii.
From stdpp Require Import base option list strings gmap fin_maps sorting.

(** ** The functions of Go's [strings] package that the tree uses *)

Module strings.

(** [s[:n]] and [s[n:]] for [n <= len(s)]. *)
Fixpoint slice_to (n : nat) (s : string) : string :=
  match n, s with
  | S n', String c s' => String c (slice_to n' s')
  | _, _ => ""
  end.

Fixpoint slice_from (n : nat) (s : string) : string :=
  match n, s with
  | S n', String _ s' => slice_from n' s'
  | _, _ => s
  end.

(** [strings.HasPrefix(s, prefix)]. *)
Fixpoint HasPrefix (s prefix : string) : bool :=
  match prefix, s with
  | "", _ => true
  | String _ _, "" => false
  | String c p, String c' s' => if Ascii.eqb c c' then HasPrefix s' p else false
  end.

(** [strings.Index(s, substr)]: the offset of the first occurrence of
    [substr] in [s]; Go's [-1] is [None]. *)
Fixpoint Index (s substr : string) : option nat :=
  if HasPrefix s substr then Some 0
  else match s with
       | "" => None
       | String _ s' => S <$> Index s' substr
       end.

(** [strings.Contains(s, substr)] is [Index(s, substr) >= 0]. *)
Definition Contains (s substr : string) : bool :=
  match Index s substr with Some _ => true | None => false end.

(** [strings.Join(a, sep)]. *)
Fixpoint Join (a : list string) (sep : string) : string :=
  match a with
  | [] => ""
  | [x] => x
  | x :: rest => x +:+ sep +:+ Join rest sep
  end.

(** The width in bytes of the first UTF-8 sequence of a non-empty string,
    as [utf8.DecodeRuneInString] reports it: an invalid or truncated
    sequence has width 1. *)
Definition continuation (lo hi : nat) (s : string) : bool :=
  match s with
  | String c _ => Nat.leb lo (nat_of_ascii c) && Nat.leb (nat_of_ascii c) hi
  | "" => false
  end.

Definition runeWidth (s : string) : nat :=
  match s with
  | "" => 0
  | String c0 s1 =>
      let b := nat_of_ascii c0 in
      let s2 := slice_from 1 s1 in
      let s3 := slice_from 2 s1 in
      let two lo hi := if continuation lo hi s1 then 2 else 1 in
      let three lo hi :=
        if continuation lo hi s1 && continuation 128 191 s2 then 3 else 1 in
      let four lo hi :=
        if continuation lo hi s1 && continuation 128 191 s2
           && continuation 128 191 s3 then 4 else 1 in
      if Nat.ltb b 194 then 1
      else if Nat.ltb b 224 then two 128 191
      else if Nat.eqb b 224 then three 160 191
      else if Nat.eqb b 237 then three 128 159
      else if Nat.ltb b 240 then three 128 191
      else if Nat.eqb b 240 then four 144 191
      else if Nat.ltb b 244 then four 128 191
      else if Nat.eqb b 244 then four 128 143
      else 1
  end.

(** [explode(s, -1)]: one string per UTF-8 sequence. *)
Fixpoint explode (budget : nat) (s : string) : list string :=
  match budget, s with
  | S budget', String _ _ =>
      let size := runeWidth s in
      slice_to size s :: explode budget' (slice_from size s)
  | _, _ => []
  end.

(** The loop of [genSplit(s, sep, 0, -1)] for a non-empty separator:
    cut at the first occurrence of [sep], continue behind it.  Go bounds
    the loop by [Count(s, sep)]; [budget] is any bound at least that. *)
Fixpoint genSplit (budget : nat) (s sep : string) : list string :=
  match budget with
  | 0 => [s]
  | S budget' =>
      match Index s sep with
      | None => [s]
      | Some m =>
          slice_to m s :: genSplit budget' (slice_from (m + String.length sep) s) sep
      end
  end.

(** [strings.Split(s, sep)]. *)
Definition Split (s sep : string) : list string :=
  if decide (sep = "") then explode (String.length s) s
  else genSplit (String.length s) s sep.

End strings.

(** ** The part of the AWS SDK's [dynamodb] package that the tree uses *)

Module dynamodb.

(** [dynamodb.AttributeValue]: a struct of optional fields, of which the
    service wants exactly one set.  The tree itself only reads and writes
    the string field [S]. *)
Record AttributeValue : Type := {
  av_S : option string;
  av_N : option string;
  av_BOOL : option bool;
}.

(** [&dynamodb.AttributeValue{S: aws.String(s)}]. *)
Definition StringValue (s : string) : AttributeValue :=
  {| av_S := Some s; av_N := None; av_BOOL := None |}.

(** [map[string]*dynamodb.AttributeValue]. *)
Abbreviation Item := (gmap string AttributeValue).

(** [dynamodb.WriteRequest], in the two shapes the tree builds: a put of
    an item, or a delete of a key. *)
Inductive WriteRequest : Type :=
| PutRequest (Item : Item)
| DeleteRequest (Key : Item).

(** [map[string][]*dynamodb.WriteRequest]: table name to requests. *)
Abbreviation RequestMap := (gmap string (list WriteRequest)).

Record BatchWriteItemInput : Type := { RequestItems : RequestMap }.
Record BatchWriteItemOutput : Type := { UnprocessedItems : RequestMap }.

Record GetItemInput : Type := { get_TableName : string; get_Key : Item }.
Record GetItemOutput : Type := { get_Item : Item }.

Record QueryInput : Type := {
  query_TableName : string;
  KeyConditionExpression : string;
  ExpressionAttributeNames : gmap string string;
  ExpressionAttributeValues : Item;
}.
Record QueryOutput : Type := { Items : list Item }.

(** What a call to the service comes back with: its output, or an error
    of the SDK (an [awserr.Error], here its code). *)
Inductive reply (A : Type) : Type :=
| Done (output : A)
| Failed (awserr : string).
Arguments Done {A} output.
Arguments Failed {A} awserr.

(** The three methods of [*dynamodb.DynamoDB] the tree calls, as
    transitions of the state [Svc] of the service behind them.
    [QueryPages] answers with the pages it can deliver and the error, if
    any, that ends the paging; the page callback is applied by the
    caller ([List]). *)
Class API (Svc : Type) : Type := {
  BatchWriteItem : BatchWriteItemInput → Svc → reply BatchWriteItemOutput * Svc;
  GetItem : GetItemInput → Svc → reply GetItemOutput * Svc;
  QueryPages : QueryInput → Svc → list QueryOutput * option string * Svc;
}.

End dynamodb.

Import dynamodb.

(** ** tree.go *)

(** [DefaultSpecialCharacter = "¦"]: U+00A6, which the UTF-8 source file
    holds as the two bytes 0xC2 0xA6. *)
Definition DefaultSpecialCharacter : string :=
  String (ascii_of_nat 194) (String (ascii_of_nat 166) "").

(** Go's [error] values: the four sentinels of the package, the errors the
    SDK returns, and whatever else a [Storable] returns. *)
Inductive error : Type :=
| ErrNotFound
| ErrNotLink
| ErrReservedCharacterInKey
| ErrReservedCharacterInAttribute
| ErrAWS (awserr : string)
| ErrOther (msg : string).

(** The [Storable] interface.  [UnmarshalDynamoDB] has a pointer receiver
    and fills it in: it maps the object before to the object after.
    [MarshalDynamoDB] returns a map, which may be [nil], and an error. *)
Class Storable (V : Type) : Type := {
  UnmarshalDynamoDB : Item → V → option error * V;
  MarshalDynamoDB : V → option Item * option error;
}.

(** ** dynamodb.go *)

(** [Tree].  [initOnce] is the [sync.Once]: whether [init] has run. *)
Record Tree (Svc : Type) : Type := {
  TableName : string;
  DB : Svc;
  SpecialCharacter : string;
  initOnce : bool;
}.
Arguments TableName {Svc} t.
Arguments DB {Svc} t.
Arguments SpecialCharacter {Svc} t.
Arguments initOnce {Svc} t.

(** How a call of a method ends: it returns, it panics, or it is still
    running when the budget of the model is used up (the two unbounded
    loops of the source: the resubmission loop and the recursion of [Get]). *)
Inductive outcome (A : Type) : Type :=
| Returns (a : A)
| Panics (msg : string)
| Spins.
Arguments Returns {A} a.
Arguments Panics {A} msg.
Arguments Spins {A}.

(** One call of [BatchWriteItem]: what was submitted and what came back. *)
Abbreviation WriteCall := (BatchWriteItemInput * reply BatchWriteItemOutput)%type.

(** A method of [*Tree]: from the tree before to its outcome, the tree
    after, and the batch writes it issued, in order. *)
Definition M (Svc A : Type) : Type :=
  Tree Svc → outcome A * Tree Svc * list WriteCall.

Section Methods.
Context {Svc : Type} `{!API Svc}.

Definition ret {A} (a : A) : M Svc A := λ t, (Returns a, t, []).
Definition panic {A} (msg : string) : M Svc A := λ t, (Panics msg, t, []).
Definition spin {A} : M Svc A := λ t, (Spins, t, []).

Definition bind {A B} (m : M Svc A) (k : A → M Svc B) : M Svc B :=
  λ t, match m t with
       | (Returns a, t', calls) =>
           let '(r, t'', calls') := k a t' in (r, t'', calls ++ calls')
       | (Panics msg, t', calls) => (Panics msg, t', calls)
       | (Spins, t', calls) => (Spins, t', calls)
       end.

Definition self : M Svc (Tree Svc) := λ t, (Returns t, t, []).

Definition callBatchWriteItem (input : BatchWriteItemInput)
  : M Svc (reply BatchWriteItemOutput) :=
  λ t, let '(r, db) := BatchWriteItem input (DB t) in
       (Returns r,
        {| TableName := TableName t; DB := db;
           SpecialCharacter := SpecialCharacter t; initOnce := initOnce t |},
        [(input, r)]).

Definition callGetItem (input : GetItemInput) : M Svc (reply GetItemOutput) :=
  λ t, let '(r, db) := GetItem input (DB t) in
       (Returns r,
        {| TableName := TableName t; DB := db;
           SpecialCharacter := SpecialCharacter t; initOnce := initOnce t |},
        []).

Definition callQueryPages (input : QueryInput)
  : M Svc (list QueryOutput * option string) :=
  λ t, let '(r, db) := QueryPages input (DB t) in
       (Returns r,
        {| TableName := TableName t; DB := db;
           SpecialCharacter := SpecialCharacter t; initOnce := initOnce t |},
        []).

(** [func (t *Tree) init()]. *)
Definition init (t : Tree Svc) : Tree Svc :=
  if decide (SpecialCharacter t = "") then
    {| TableName := TableName t; DB := DB t;
       SpecialCharacter := DefaultSpecialCharacter; initOnce := initOnce t |}
  else t.

(** [t.initOnce.Do(t.init)]. *)
Definition initOnceDo (t : Tree Svc) : Tree Svc :=
  if initOnce t then t
  else let t' := init t in
       {| TableName := TableName t'; DB := DB t';
          SpecialCharacter := SpecialCharacter t'; initOnce := true |}.

Definition doInit : M Svc unit := λ t, (Returns tt, initOnceDo t, []).

End Methods.

Global Instance M_ret {Svc} : MRet (M Svc) := λ A a, ret a.
Global Instance M_bind {Svc} : MBind (M Svc) := λ A B k m, bind m k.

Section Tree.
Context {Svc : Type} `{!API Svc}.

(** The loop over the parts of the key, lines 83-103 of [Put] and
    160-180 of [PutLink]: one row per part, keyed by the path before
    it; [inl] is the early [return]. *)
Fixpoint pathLoop (sc : string) (key : list string) (pathKey : string)
    (writeRequests : list WriteRequest) : error + string * list WriteRequest :=
  match key with
  | [] => inr (pathKey, writeRequests)
  | key_i :: key' =>
      if strings.Contains key_i sc then inl ErrReservedCharacterInKey
      else
        let pathKey := pathKey +:+ sc in
        let ChildKey := key_i in
        let writeRequests :=
          writeRequests ++
            [PutRequest {[ "Key" := StringValue pathKey;
                           "Child" := StringValue ChildKey ]}] in
        let pathKey := pathKey +:+ key_i in
        pathLoop sc key' pathKey writeRequests
  end.

(** The resubmission loop, lines 139-148 (220-228, 384-393):
    [for { ... }], which ends on an error or on an empty
    [UnprocessedItems]. *)
Fixpoint retryLoop (budget : nat) (input : BatchWriteItemInput)
    : M Svc (option error) :=
  match budget with
  | 0 => spin
  | S budget' =>
      r ← callBatchWriteItem input;
      match r with
      | Failed err => ret (Some (ErrAWS err))
      | Done output =>
          if decide (size (UnprocessedItems output) = 0) then ret None
          else retryLoop budget' {| RequestItems := UnprocessedItems output |}
      end
  end.

(** [writeRequests[i:n]] for [i <= n <= len(writeRequests)]. *)
Definition slice {A} (l : list A) (i n : nat) : list A := take (n - i) (drop i l).

(** The loop over the chunks, lines 128-149 (207-229):
    [for i := 0; i < len(writeRequests); i += 25].  [steps] counts its
    iterations down; [length writeRequests] of them are always enough. *)
Fixpoint batchLoop (steps budget i : nat) (writeRequests : list WriteRequest)
    : M Svc (option error) :=
  if decide (i < length writeRequests) then
    match steps with
    | 0 => spin
    | S steps' =>
        let n := i + 25 in
        let n := if decide (length writeRequests ≤ n)
                 then length writeRequests else n in
        t ← self;
        let input :=
          {| RequestItems := {[ TableName t := slice writeRequests i n ]} |} in
        r ← retryLoop budget input;
        match r with
        | Some err => ret (Some err)
        | None => batchLoop steps' budget (i + 25) writeRequests
        end
    end
  else ret None.

(** Put stores item in the tree according to "key". *)
Definition Put {V} `{!Storable V} (budget : nat) (key : list string)
    (item : option V) : M Svc (option error) :=
  doInit;;
  t ← self;
  let writeRequests := [] in
  let pathKey := "" in
  match pathLoop (SpecialCharacter t) key pathKey writeRequests with
  | inl err => ret (Some err)
  | inr (pathKey, writeRequests) =>
      match item with
      | None => panic "nil pointer dereference"
      | Some item =>
          match MarshalDynamoDB item with
          | (_, Some err) => ret (Some err)
          | (None, None) => panic "assignment to entry in nil map"
          | (Some attributes, None) =>
              let attributes := <["Key" := StringValue pathKey]> attributes in
              let attributes :=
                <["Child" := StringValue (SpecialCharacter t)]> attributes in
              if decide (map_Forall
                           (λ fieldName _,
                              strings.HasPrefix fieldName (SpecialCharacter t) = false)
                           attributes)
              then
                let writeRequests := writeRequests ++ [PutRequest attributes] in
                batchLoop (length writeRequests) budget 0 writeRequests
              else ret (Some ErrReservedCharacterInAttribute)
          end
      end
  end.

(** The loop over the parts of the target, lines 182-186 of [PutLink]. *)
Fixpoint targetLoop (sc : string) (target : list string) : option error :=
  match target with
  | [] => None
  | targetKeyPart :: target' =>
      if strings.Contains targetKeyPart sc then Some ErrReservedCharacterInKey
      else targetLoop sc target'
  end.

(** PutLink creates a new link key that is a symbolic link to target. *)
Definition PutLink (budget : nat) (key target : list string)
    : M Svc (option error) :=
  doInit;;
  t ← self;
  let writeRequests := [] in
  let pathKey := "" in
  match pathLoop (SpecialCharacter t) key pathKey writeRequests with
  | inl err => ret (Some err)
  | inr (pathKey, writeRequests) =>
      match targetLoop (SpecialCharacter t) target with
      | Some err => ret (Some err)
      | None =>
          let targetPathKey :=
            SpecialCharacter t +:+ strings.Join target (SpecialCharacter t) in
          (* the entries of the map literal are set in the order written *)
          let attributes : Item :=
            <[SpecialCharacter t := StringValue targetPathKey]>
              (<["Child" := StringValue (SpecialCharacter t)]>
                 (<["Key" := StringValue pathKey]> ∅)) in
          let writeRequests := writeRequests ++ [PutRequest attributes] in
          batchLoop (length writeRequests) budget 0 writeRequests
      end
  end.

(** The key of the object row of a path, as lines 243-255 and 281-293
    build it. *)
Definition objectKey (t : Tree Svc) (key : list string) : GetItemInput :=
  let pathKey :=
    SpecialCharacter t +:+ strings.Join key (SpecialCharacter t) in
  {| get_TableName := TableName t;
     get_Key := {[ "Key" := StringValue pathKey;
                   "Child" := StringValue (SpecialCharacter t) ]} |}.

(** Lines 265 and 306: the string [S] of the link attribute, split at
    the special character, without its first piece.  The dereference
    panics on a nil [S], the slice [[1:]] on an empty result. *)
Definition linkKey {A} (t : Tree Svc) (linkTarget : AttributeValue)
    (k : list string → M Svc A) : M Svc A :=
  match av_S linkTarget with
  | None => panic "nil pointer dereference"
  | Some s =>
      match strings.Split s (SpecialCharacter t) with
      | [] => panic "slice bounds out of range"
      | _ :: key => k key
      end
  end.

(** Get fetches an item from the tree, following links.  [depth] bounds
    the recursion through links. *)
Fixpoint Get {V} `{!Storable V} (depth : nat) (key : list string)
    (ob : option V) : M Svc (option error * option V) :=
  match depth with
  | 0 => spin
  | S depth' =>
      doInit;;
      t ← self;
      resp ← callGetItem (objectKey t key);
      match resp with
      | Failed err => ret (Some (ErrAWS err), ob)
      | Done resp =>
          if decide (size (get_Item resp) = 0) then ret (Some ErrNotFound, ob)
          else
            match get_Item resp !! SpecialCharacter t with
            | Some linkTarget =>
                linkKey t linkTarget (λ key, Get depth' key ob)
            | None =>
                match ob with
                | None => panic "nil pointer dereference"
                | Some v =>
                    match UnmarshalDynamoDB (get_Item resp) v with
                    | (Some err, v') => ret (Some err, Some v')
                    | (None, v') => ret (None, Some v')
                    end
                end
            end
      end
  end.

(** GetLink returns the target of the link at "key". *)
Definition GetLink (key : list string) : M Svc (list string * option error) :=
  doInit;;
  t ← self;
  resp ← callGetItem (objectKey t key);
  match resp with
  | Failed err => ret ([], Some (ErrAWS err))
  | Done resp =>
      if decide (size (get_Item resp) = 0) then ret ([], Some ErrNotFound)
      else
        match get_Item resp !! SpecialCharacter t with
        | None => ret ([], Some ErrNotLink)
        | Some linkTarget => linkKey t linkTarget (λ key, ret (key, None))
        end
  end.

(** The page callback of [List], lines 326-334: [Some (continue, acc)],
    or [None] where the dereference of the [S] of [Child] panics. *)
Fixpoint pageFunc {A} (itemFunc : string → option error → A → bool * A)
    (items : list Item) (acc : A) : option (bool * A) :=
  match items with
  | [] => Some (true, acc)
  | attrs :: items' =>
      match attrs !! "Child" ≫= av_S with
      | None => None
      | Some child =>
          let '(shouldContinue, acc) := itemFunc child None acc in
          if shouldContinue then pageFunc itemFunc items' acc
          else Some (false, acc)
      end
  end.

(** The SDK's paging: the callback sees page after page until it returns
    false; [Some (stopped, acc)], or [None] for a panic. *)
Fixpoint eachPage {A} (itemFunc : string → option error → A → bool * A)
    (pages : list QueryOutput) (acc : A) : option (bool * A) :=
  match pages with
  | [] => Some (false, acc)
  | p :: pages' =>
      match pageFunc itemFunc (Items p) acc with
      | None => None
      | Some (true, acc) => eachPage itemFunc pages' acc
      | Some (false, acc) => Some (true, acc)
      end
  end.

(** List enumerates the immediate child objects at keyPrefix.  The
    callback [itemFunc] is a closure: [A] is the state it closes over. *)
Definition List {A} (keyPrefix : list string)
    (itemFunc : string → option error → A → bool * A) (acc : A) : M Svc A :=
  doInit;;
  t ← self;
  let pathKey :=
    SpecialCharacter t +:+ strings.Join keyPrefix (SpecialCharacter t)
      +:+ SpecialCharacter t in
  r ← callQueryPages
        {| query_TableName := TableName t;
           KeyConditionExpression := "#K = :key";
           ExpressionAttributeNames := {[ "#K" := "Key" ]};
           ExpressionAttributeValues := {[ ":key" := StringValue pathKey ]} |};
  match eachPage itemFunc r.1 acc with
  | None => panic "nil pointer dereference"
  | Some (true, acc) => ret acc
  | Some (false, acc) =>
      match r.2 with
      | Some err => ret (itemFunc "" (Some (ErrAWS err)) acc).2
      | None => ret acc
      end
  end.

(** Delete removes the item given by "key" from the tree and its
    containing directory.  [key[:len(key)-1]] panics on the empty key. *)
Definition Delete (budget : nat) (key : list string) : M Svc (option error) :=
  doInit;;
  t ← self;
  let writeRequests := [] in
  match length key with
  | 0 => panic "slice bounds out of range [:-1]"
  | S last =>
      let pathKey :=
        SpecialCharacter t +:+ strings.Join (take last key) (SpecialCharacter t)
          +:+ SpecialCharacter t in
      match key !! last with
      | None => panic "index out of range"
      | Some ChildKey =>
          let writeRequests :=
            writeRequests ++
              [DeleteRequest {[ "Key" := StringValue pathKey;
                                "Child" := StringValue ChildKey ]}] in
          let pathKey := pathKey +:+ ChildKey in
          let writeRequests :=
            writeRequests ++
              [DeleteRequest {[ "Key" := StringValue pathKey;
                                "Child" := StringValue (SpecialCharacter t) ]}] in
          let input := {| RequestItems := {[ TableName t := writeRequests ]} |} in
          retryLoop budget input
      end
  end.

End Tree.

(** ** An in-memory table service

    The tests run against [fakedynamodb]; this is such a service: tables
    of rows under their hash and range key, and a script of faults that
    makes it throttle (leave requests of a batch unprocessed) or fail. *)

Module fakedynamodb.

(** The rows of a table, by the strings of [Key] and [Child]. *)
Abbreviation Table := (gmap (string * string) Item).

(** What the service does to the next call: fail it, or, for a batch
    write, leave unprocessed the requests at the positions marked
    [true]. *)
Inductive Fault : Type :=
| Fail (awserr : string)
| Throttle (unprocessed : list bool).

Record FakeDynamoDB : Type := {
  tables : gmap string Table;
  faults : list Fault;
}.

Definition primaryKey (item : Item) : option (string * string) :=
  k ← item !! "Key" ≫= av_S;
  c ← item !! "Child" ≫= av_S;
  Some (k, c).

Definition requestKey (r : WriteRequest) : option (string * string) :=
  match r with
  | PutRequest item => primaryKey item
  | DeleteRequest key => primaryKey key
  end.

Definition write (rows : Table) (r : WriteRequest) : Table :=
  match r with
  | PutRequest item =>
      match primaryKey item with
      | Some k => <[k := item]> rows
      | None => rows
      end
  | DeleteRequest key =>
      match primaryKey key with
      | Some k => delete k rows
      | None => rows
      end
  end.

Fixpoint processed (mask : list bool) (l : list WriteRequest) : list WriteRequest :=
  match l, mask with
  | [], _ => []
  | r :: l', true :: mask' => processed mask' l'
  | r :: l', false :: mask' => r :: processed mask' l'
  | r :: l', [] => r :: processed [] l'
  end.

Fixpoint unprocessed (mask : list bool) (l : list WriteRequest) : list WriteRequest :=
  match l, mask with
  | [], _ => []
  | r :: l', true :: mask' => r :: unprocessed mask' l'
  | r :: l', false :: mask' => unprocessed mask' l'
  | r :: l', [] => unprocessed [] l'
  end.

(** The service validates a batch before it writes: the tables exist,
    every table has between 1 and 25 requests, every request names its
    row. *)
Definition accepted (tbls : gmap string Table) (reqs : RequestMap) : Prop :=
  reqs ≠ ∅ ∧
  map_Forall (λ tn l,
    is_Some (tbls !! tn) ∧ 0 < length l ∧ length l ≤ 25 ∧
    Forall (λ r, is_Some (requestKey r)) l) reqs.

Definition next (db : FakeDynamoDB) : Fault * FakeDynamoDB :=
  match faults db with
  | [] => (Throttle [], db)
  | f :: fs => (f, {| tables := tables db; faults := fs |})
  end.

Definition batchWriteItem (input : BatchWriteItemInput) (db : FakeDynamoDB)
    : reply BatchWriteItemOutput * FakeDynamoDB :=
  let '(fault, db) := next db in
  match fault with
  | Fail err => (Failed err, db)
  | Throttle mask =>
      if decide (accepted (tables db) (RequestItems input)) then
        (Done {| UnprocessedItems :=
                   omap (λ l, match unprocessed mask l with
                              | [] => None
                              | u => Some u
                              end) (RequestItems input) |},
         {| tables :=
              merge (λ rows l, match rows, l with
                               | Some rows, Some l =>
                                   Some (foldl write rows (processed mask l))
                               | _, _ => rows
                               end) (tables db) (RequestItems input);
            faults := faults db |})
      else (Failed "ValidationException", db)
  end.

Definition getItem (input : GetItemInput) (db : FakeDynamoDB)
    : reply GetItemOutput * FakeDynamoDB :=
  let '(fault, db) := next db in
  match fault with
  | Fail err => (Failed err, db)
  | Throttle _ =>
      match tables db !! get_TableName input, primaryKey (get_Key input) with
      | None, _ => (Failed "ResourceNotFoundException", db)
      | Some _, None => (Failed "ValidationException", db)
      | Some rows, Some k => (Done {| get_Item := default ∅ (rows !! k) |}, db)
      end
  end.

(** The rows of one hash key, by ascending range key. *)
Definition rowLe : relation (string * string * Item) :=
  λ x y, String.le x.1.2 y.1.2.

Definition rowLe_dec : RelDecision rowLe := λ x y, decide (String.le x.1.2 y.1.2).

Definition partition (pk : string) (rows : Table) : list Item :=
  (@merge_sort _ rowLe rowLe_dec
     (map_to_list (filter (λ kv, kv.1.1 = pk) rows))).*2.

(** The service understands the one key condition the tree sends and
    delivers its answer as a single page. *)
Definition queryPages (input : QueryInput) (db : FakeDynamoDB)
    : list QueryOutput * option string * FakeDynamoDB :=
  let '(fault, db) := next db in
  match fault with
  | Fail err => ([], Some err, db)
  | Throttle _ =>
      match tables db !! query_TableName input,
            ExpressionAttributeNames input !! "#K",
            ExpressionAttributeValues input !! ":key" ≫= av_S with
      | None, _, _ => ([], Some "ResourceNotFoundException", db)
      | Some rows, Some name, Some pk =>
          if decide (KeyConditionExpression input = "#K = :key" ∧ name = "Key")
          then ([{| Items := partition pk rows |}], None, db)
          else ([], Some "ValidationException", db)
      | Some _, _, _ => ([], Some "ValidationException", db)
      end
  end.

Global Instance api : API FakeDynamoDB := {|
  BatchWriteItem := batchWriteItem;
  GetItem := getItem;
  QueryPages := queryPages;
|}.

End fakedynamodb.

Import fakedynamodb.

(** ** Notions the properties are stated with *)

(** A separator no proper suffix of which is a prefix of it: a single
    byte, or the UTF-8 bytes of a single character. *)
Definition Unbordered (sep : string) : Prop :=
  ∀ k, 0 < k < String.length sep →
       strings.HasPrefix sep (strings.slice_from k sep) = false.

(** A path whose parts are free of the special character. *)
Definition validKey (sc : string) (key : list string) : Prop :=
  Forall (λ part, strings.Contains part sc = false) key.

(** The path key after the parts of [key]: every part behind a special
    character.  For a non-empty key this is the special character
    followed by the joined key. *)
Fixpoint prefixKey (sc : string) (key : list string) : string :=
  match key with
  | [] => ""
  | part :: key' => sc +:+ part +:+ prefixKey sc key'
  end.

(** The row that records [part] as a child under the path key [pathKey]. *)
Definition edgeRow (pathKey part : string) : WriteRequest :=
  PutRequest {[ "Key" := StringValue pathKey; "Child" := StringValue part ]}.

(** The rows of the prefixes of a key, from the path key [pathKey] on. *)
Fixpoint edgeRows (sc pathKey : string) (key : list string) : list WriteRequest :=
  match key with
  | [] => []
  | part :: key' =>
      edgeRow (pathKey +:+ sc) part :: edgeRows sc (pathKey +:+ sc +:+ part) key'
  end.

(** *** The batch writer, in the words of its contract

    The list of mutations is cut into consecutive chunks of at most 25. *)
Fixpoint chunks (steps : nat) (l : list WriteRequest) : list (list WriteRequest) :=
  match steps, l with
  | S steps', _ :: _ => take 25 l :: chunks steps' (drop 25 l)
  | _, _ => []
  end.

(** The calls for one pending set: submit; on unprocessed items, submit
    exactly those; the last call is the one that failed or left nothing
    unprocessed, unless the loop is still running. *)
Inductive chunk_run : RequestMap → list WriteCall → outcome (option error) → Prop :=
| run_spins pending :
    chunk_run pending [] Spins
| run_failed pending err :
    chunk_run pending [({| RequestItems := pending |}, Failed err)]
      (Returns (Some (ErrAWS err)))
| run_done pending output :
    size (UnprocessedItems output) = 0 →
    chunk_run pending [({| RequestItems := pending |}, Done output)] (Returns None)
| run_again pending output calls res :
    size (UnprocessedItems output) ≠ 0 →
    chunk_run (UnprocessedItems output) calls res →
    chunk_run pending (({| RequestItems := pending |}, Done output) :: calls) res.

(** The calls for the chunks, one after the other; the first chunk that
    does not finish ends the run. *)
Inductive batch_run (table : string)
  : list (list WriteRequest) → list WriteCall → outcome (option error) → Prop :=
| batch_end :
    batch_run table [] [] (Returns None)
| batch_next chunk rest calls calls' res :
    chunk_run {[ table := chunk ]} calls (Returns None) →
    batch_run table rest calls' res →
    batch_run table (chunk :: rest) (calls ++ calls') res
| batch_stop chunk rest calls res :
    chunk_run {[ table := chunk ]} calls res →
    res ≠ Returns None →
    batch_run table (chunk :: rest) calls res.

(** *** Rows of the in-memory service *)

(** No request of [l] names the row [k]. *)
Definition untouched (k : string * string) (l : list WriteRequest) : Prop :=
  Forall (λ r, requestKey r ≠ Some k) l.

(** [l] puts [item] in the row [k] and has no other request for that row. *)
Inductive sole_put (k : string * string) (item : Item) : list WriteRequest → Prop :=
| sole_here l :
    primaryKey item = Some k → untouched k l →
    sole_put k item (PutRequest item :: l)
| sole_later r l :
    requestKey r ≠ Some k → sole_put k item l →
    sole_put k item (r :: l).

(** What a run of writes of [l] to the table [tn] has done when it took
    the service from [db] to [db']: other tables and rows that [l] does
    not name are as before; if the run is [complete], a row that [l] puts
    once holds what was put. *)
Definition wrote (tn : string) (l : list WriteRequest) (complete : Prop)
    (db db' : FakeDynamoDB) : Prop :=
  (∀ tn', tn' ≠ tn → tables db' !! tn' = tables db !! tn') ∧
  match tables db !! tn with
  | None => tables db' !! tn = None
  | Some rows =>
      ∃ rows', tables db' !! tn = Some rows' ∧
        ∀ k, (untouched k l → rows' !! k = rows !! k) ∧
             (complete → ∀ item, sole_put k item l → rows' !! k = Some item)
  end.

(** The configuration of a tree: all of it but the service. *)
Definition same_config {Svc} (t t' : Tree Svc) : Prop :=
  TableName t' = TableName t ∧ SpecialCharacter t' = SpecialCharacter t ∧
  initOnce t' = initOnce t.

(** The errors [Put] returns before it writes: the two of the reserved
    character, and the error of the item's [MarshalDynamoDB]. *)
Definition rejected {V} `{!Storable V} (item : option V) (err : error) : Prop :=
  err = ErrReservedCharacterInKey ∨ err = ErrReservedCharacterInAttribute ∨
  ∃ v attributes, item = Some v ∧ MarshalDynamoDB v = (attributes, Some err).

(** The object row [Put] builds from the attributes of the item, and the
    link row [PutLink] builds. *)
Definition objectRow (sc pathKey : string) (attributes : Item) : Item :=
  <["Child" := StringValue sc]> (<["Key" := StringValue pathKey]> attributes).

Definition linkRow (sc pathKey : string) (target : list string) : Item :=
  <[sc := StringValue (sc +:+ strings.Join target sc)]>
    (<["Child" := StringValue sc]> (<["Key" := StringValue pathKey]> ∅)).

(** No attribute name of a row starts with the special character: the
    check of lines 116-120. *)
Definition unreserved (sc : string) (row : Item) : Prop :=
  map_Forall (λ fieldName _, strings.HasPrefix fieldName sc = false) row.

(** [l1] and [l2] share out the requests of [l]. *)
Definition splits (l l1 l2 : list WriteRequest) : Prop :=
  ∀ k,
    (untouched k l → untouched k l1 ∧ untouched k l2) ∧
    (∀ item, sole_put k item l →
       (sole_put k item l1 ∧ untouched k l2) ∨
       (untouched k l1 ∧ sole_put k item l2)).

(** ** Stored types and trees for the examples

    [AccountT] follows the type of the tests: its attributes are its
    fields, and [MarshalFailPlease] makes the serialization fail. *)
Record AccountT : Type := {
  ID : string;
  Name : string;
  MarshalFailPlease : bool;
}.

Global Instance AccountT_Storable : Storable AccountT := {|
  MarshalDynamoDB a :=
    if MarshalFailPlease a then (None, Some (ErrOther "could not grob the frob"))
    else (Some {[ "ID" := StringValue (ID a);
                  "Name" := StringValue (Name a);
                  "MarshalFailPlease" :=
                    {| av_S := None; av_N := None; av_BOOL := Some false |} ]},
          None);
  UnmarshalDynamoDB item a :=
    match item !! "ID" ≫= av_S, item !! "Name" ≫= av_S,
          item !! "MarshalFailPlease" ≫= av_BOOL with
    | Some id, Some name, Some b =>
        (None, {| ID := id; Name := name; MarshalFailPlease := b |})
    | _, _, _ => (Some (ErrOther "could not grob the frob"), a)
    end;
|}.

Definition alice : AccountT :=
  {| ID := "12345"; Name := "alice"; MarshalFailPlease := false |}.

Definition blank : AccountT :=
  {| ID := ""; Name := ""; MarshalFailPlease := false |}.

(** A stored type with a field named like the hash key of the table. *)
Record ShortLink : Type := { Key : string }.

Global Instance ShortLink_Storable : Storable ShortLink := {|
  MarshalDynamoDB l := (Some {[ "Key" := StringValue (Key l) ]}, None);
  UnmarshalDynamoDB item l :=
    match item !! "Key" ≫= av_S with
    | Some k => (None, {| Key := k |})
    | None => (Some (ErrOther "no Key"), l)
    end;
|}.

(** A fresh tree on a service with one empty table and the faults [fs]. *)
Definition newTree (sc : string) (fs : list Fault) : Tree FakeDynamoDB :=
  {| TableName := "tree";
     DB := {| tables := {[ "tree" := ∅ ]}; faults := fs |};
     SpecialCharacter := sc;
     initOnce := false |}.

(** The tree after a method call. *)
Definition after {A} (r : outcome A * Tree FakeDynamoDB * list WriteCall)
    : Tree FakeDynamoDB := r.1.2.

(** Decidable facts about concrete rows, by evaluation. *)
Ltac by_compute := apply (bool_decide_unpack _); vm_compute; exact I.

(** ** Further notions: deletes, and the creation of the table *)

(** What a request leaves in its row. *)
Definition effect (r : WriteRequest) : option Item :=
  match r with
  | PutRequest item => Some item
  | DeleteRequest _ => None
  end.

(** [l] has one request for the row [k], the request [r]. *)
Inductive sole (k : string * string) (r : WriteRequest) : list WriteRequest → Prop :=
| sole_first l :
    requestKey r = Some k → untouched k l → sole k r (r :: l)
| sole_next r' l :
    requestKey r' ≠ Some k → sole k r l → sole k r (r' :: l).

(** A complete run of the writes of [l] to the table [tn]: a row that [l]
    names once holds the effect of that request. *)
Definition applied (tn : string) (l : list WriteRequest)
    (db db' : FakeDynamoDB) : Prop :=
  match tables db !! tn with
  | None => True
  | Some rows =>
      ∃ rows', tables db' !! tn = Some rows' ∧
        ∀ k r, sole k r l → rows' !! k = effect r
  end.

(** One call per chunk, each answered without unprocessed items: the
    calls of the batch writer on a service without faults. *)
Definition cleanCalls (tn : string) (cs : list (list WriteRequest)) : list WriteCall :=
  (λ chunk, ({| RequestItems := {[ tn := chunk ]} |},
             Done {| UnprocessedItems := ∅ |})) <$> cs.

(** The query [List] sends, lines 316-326. *)
Definition listQuery {Svc} (t : Tree Svc) (keyPrefix : list string) : QueryInput :=
  {| query_TableName := TableName t;
     KeyConditionExpression := "#K = :key";
     ExpressionAttributeNames := {[ "#K" := "Key" ]};
     ExpressionAttributeValues :=
       {[ ":key" := StringValue
                      (SpecialCharacter t
                         +:+ strings.Join keyPrefix (SpecialCharacter t)
                         +:+ SpecialCharacter t) ]} |}.

(** *** [CreateTable]

    [dynamodb.CreateTableInput], with the key schema and the attribute
    definitions as pairs of name and type, and the provisioned read and
    write capacity units. *)
Record CreateTableInput : Type := {
  create_TableName : string;
  KeySchema : list (string * string);
  AttributeDefinitions : list (string * string);
  ProvisionedThroughput : nat * nat;
}.

(** The method [CreateTable] of [*dynamodb.DynamoDB]: the state of the
    service after the call, and the error, of which [CreateTable] of the
    tree reads the text. *)
Class TableAPI (Svc : Type) : Type := {
  DBCreateTable : CreateTableInput → Svc → option string * Svc;
}.

(** The in-memory service creates an empty table, and refuses, in the
    words of DynamoDB, to create one that exists. *)
Definition createTable (input : CreateTableInput) (db : FakeDynamoDB)
    : option string * FakeDynamoDB :=
  let '(fault, db) := next db in
  match fault with
  | Fail err => (Some err, db)
  | Throttle _ =>
      match tables db !! create_TableName input with
      | Some _ =>
          (Some ("ResourceInUseException: Table already exists: "
                   +:+ create_TableName input), db)
      | None =>
          (None, {| tables := <[create_TableName input := ∅]> (tables db);
                    faults := faults db |})
      end
  end.

Global Instance fake_TableAPI : TableAPI FakeDynamoDB :=
  {| DBCreateTable := createTable |}.

(** CreateTable creates the DynamoDB table specified by TableName if it
    does not exist, lines 34-68. *)
Definition CreateTable {Svc} `{!TableAPI Svc} : M Svc (option error) :=
  doInit;;
  t ← self;
  err ← (λ t : Tree Svc,
           let '(err, db) :=
             DBCreateTable
               {| create_TableName := TableName t;
                  KeySchema := [("Key", "HASH"); ("Child", "RANGE")];
                  AttributeDefinitions := [("Key", "S"); ("Child", "S")];
                  ProvisionedThroughput := (1, 1) |} (DB t) in
           (Returns err,
            {| TableName := TableName t; DB := db;
               SpecialCharacter := SpecialCharacter t; initOnce := initOnce t |},
            []));
  match err with
  | Some e =>
      if strings.HasPrefix e "ResourceInUseException" then ret None
      else ret (Some (ErrAWS e))
  | None => ret None
  end.

(** * Properties *)

(** ** Byte strings *)

Section StringFacts.
Import strings.

Lemma string_app_cons a s r : String a s +:+ r = String a (s +:+ r).
Proof. reflexivity. Qed.

Lemma string_app_nil_l s : "" +:+ s = s.
Proof. reflexivity. Qed.

Lemma string_app_nil_r s : s +:+ "" = s.
Proof. induction s as [|a s IH]; [done|]. by rewrite string_app_cons, IH. Qed.

Lemma string_app_assoc s1 s2 s3 : (s1 +:+ s2) +:+ s3 = s1 +:+ s2 +:+ s3.
Proof. induction s1 as [|a s1 IH]; [done|]. by rewrite !string_app_cons, IH. Qed.

Lemma string_length_nonempty s : s ≠ "" → 0 < String.length s.
Proof. destruct s; [done|simpl; lia]. Qed.

Lemma string_length_app s1 s2 :
  String.length (s1 +:+ s2) = String.length s1 + String.length s2.
Proof. induction s1 as [|a s1 IH]; [done|]. rewrite string_app_cons. simpl. by rewrite IH. Qed.

Lemma slice_to_app s r : slice_to (String.length s) (s +:+ r) = s.
Proof. induction s as [|a s IH]; [by destruct r|]. rewrite string_app_cons. simpl. by rewrite IH. Qed.

Lemma slice_from_app s r n :
  slice_from (String.length s + n) (s +:+ r) = slice_from n r.
Proof. induction s as [|a s IH]; [done|]. by rewrite string_app_cons. Qed.

Lemma slice_from_app0 s r : slice_from (String.length s) (s +:+ r) = r.
Proof. induction s as [|a s IH]; [by destruct r|]. by rewrite string_app_cons. Qed.

Lemma slice_from_0 s : slice_from 0 s = s.
Proof. by destruct s. Qed.

Lemma length_slice_from n s :
  String.length (slice_from n s) = String.length s - n.
Proof.
  revert s. induction n as [|n IH]; intros [|a s]; simpl; try done.
Qed.

Lemma slice_to_from n s : slice_to n s +:+ slice_from n s = s.
Proof.
  revert s. induction n as [|n IH]; intros [|a s]; simpl; try done.
  by rewrite string_app_cons, IH.
Qed.

Lemma HasPrefix_nil s : HasPrefix s "" = true.
Proof. by destruct s. Qed.

Lemma HasPrefix_cons a b s p :
  HasPrefix (String a s) (String b p) = true ↔ a = b ∧ HasPrefix s p = true.
Proof.
  simpl. destruct (Ascii.eqb_spec b a) as [->|Hne]; [tauto|].
  split; [done|]. by intros [-> _].
Qed.

Lemma HasPrefix_app p r : HasPrefix (p +:+ r) p = true.
Proof.
  induction p as [|a p IH]; [apply HasPrefix_nil|].
  rewrite string_app_cons. by apply HasPrefix_cons.
Qed.

Lemma HasPrefix_true s p : HasPrefix s p = true → ∃ r, s = p +:+ r.
Proof.
  revert s. induction p as [|b p IH]; intros s Hs; [by exists s|].
  destruct s as [|a s]; [done|].
  apply HasPrefix_cons in Hs as [-> Hs]. destruct (IH _ Hs) as [r ->].
  by exists r.
Qed.

Lemma HasPrefix_refl s : HasPrefix s s = true.
Proof. rewrite <-(string_app_nil_r s) at 1. apply HasPrefix_app. Qed.

(** A prefix of [s +:+ r] no longer than [s] is a prefix of [s]. *)
Lemma HasPrefix_app_short s r p :
  String.length p ≤ String.length s →
  HasPrefix (s +:+ r) p = true → HasPrefix s p = true.
Proof.
  revert s. induction p as [|b p IH]; intros s Hlen Hp; [apply HasPrefix_nil|].
  destruct s as [|a s]; [simpl in Hlen; lia|].
  rewrite string_app_cons in Hp. apply HasPrefix_cons in Hp as [-> Hp].
  apply HasPrefix_cons. split; [done|]. apply IH; [simpl in Hlen; lia|done].
Qed.

(** Where [p] is a prefix of [c +:+ x] it is a prefix of [c], or [c]
    ends inside it and [x] starts with the rest of it. *)
Lemma HasPrefix_straddle c x p :
  HasPrefix (c +:+ x) p = true →
  HasPrefix c p = true ∨
  (String.length c < String.length p ∧
   HasPrefix x (slice_from (String.length c) p) = true).
Proof.
  revert p. induction c as [|a c IH]; intros p Hp.
  - destruct p as [|b p]; [by left|]. right. split; [simpl; lia|].
    by rewrite slice_from_0.
  - destruct p as [|b p]; [by left|].
    rewrite string_app_cons in Hp. apply HasPrefix_cons in Hp as [-> Hp].
    destruct (IH _ Hp) as [Hc|[Hlen Hx]].
    + left. by apply HasPrefix_cons.
    + right. split; [simpl; lia|done].
Qed.

Lemma Index_None_tail a s sep :
  Index (String a s) sep = None → Index s sep = None.
Proof.
  simpl. destruct sep as [|b sep]; [done|].
  destruct (Ascii.eqb b a && HasPrefix s sep) eqn:E.
  - destruct (Ascii.eqb b a); simpl in E; [by rewrite E|done].
  - destruct (Ascii.eqb b a); simpl in E; [rewrite E|];
      by destruct (Index s (String b sep)).
Qed.

Lemma Index_None_HasPrefix s sep : Index s sep = None → HasPrefix s sep = false.
Proof.
  destruct s as [|a s]; cbn [Index];
    [destruct (HasPrefix "" sep)|destruct (HasPrefix (String a s) sep)]; done.
Qed.

Lemma Contains_false s sep : Contains s sep = false ↔ Index s sep = None.
Proof. unfold Contains. by destruct (Index s sep). Qed.

Lemma Contains_refl s : Contains s s = true.
Proof.
  unfold Contains. destruct s as [|a s]; [done|].
  cbn [Index]. by rewrite HasPrefix_refl.
Qed.

Lemma Contains_nil s : Contains s "" = true.
Proof. unfold Contains. by destruct s. Qed.

(** The first occurrence of an unbordered separator behind a part that
    is free of it is right behind that part. *)
Lemma Index_behind c sep r :
  Unbordered sep → Contains c sep = false →
  Index (c +:+ sep +:+ r) sep = Some (String.length c).
Proof.
  intros Hsep Hc. apply Contains_false in Hc.
  induction c as [|a c IH].
  - rewrite string_app_nil_l. destruct sep as [|b sep]; [done|].
    rewrite string_app_cons. cbn [Index]. by rewrite <-string_app_cons, HasPrefix_app.
  - specialize (IH (Index_None_tail _ _ _ Hc)).
    assert (HasPrefix (String a c +:+ sep +:+ r) sep = false) as Hno.
    { destruct (HasPrefix _ sep) eqn:Hp; [|done]. exfalso.
      apply HasPrefix_straddle in Hp as [Hp|[Hlen Hp]].
      - by rewrite (Index_None_HasPrefix _ _ Hc) in Hp.
      - apply HasPrefix_app_short in Hp.
        + rewrite Hsep in Hp; [done|]. simpl in *. lia.
        + rewrite length_slice_from. lia. }
    rewrite string_app_cons in *. cbn [Index]. by rewrite Hno, IH.
Qed.

(** [Index] finds an occurrence. *)
Lemma Index_Some s sep m :
  Index s sep = Some m →
  s = slice_to m s +:+ sep +:+ slice_from (m + String.length sep) s.
Proof.
  revert m. induction s as [|a s IH]; intros m.
  - destruct sep; [|done]. by intros [= <-].
  - cbn [Index]. destruct (HasPrefix (String a s) sep) eqn:Hp.
    + intros [= <-]. apply HasPrefix_true in Hp as [r Hr]. rewrite Hr.
      change (0 + String.length sep) with (String.length sep).
      by rewrite slice_from_app0.
    + destruct (Index s sep) as [m'|] eqn:Hi; [|done]. intros [= <-].
      simpl. rewrite string_app_cons. f_equal. by apply IH.
Qed.

Lemma genSplit_nonempty budget s sep : genSplit budget s sep ≠ [].
Proof. destruct budget; simpl; [done|]. by destruct (Index s sep). Qed.

Lemma Join_cons x rest sep :
  rest ≠ [] → Join (x :: rest) sep = x +:+ sep +:+ Join rest sep.
Proof. by destruct rest. Qed.

(** Joining what was split gives the string back. *)
Lemma Join_genSplit budget s sep :
  sep ≠ "" → String.length s ≤ budget → Join (genSplit budget s sep) sep = s.
Proof.
  intros Hsep. revert s. induction budget as [|budget IH]; intros s Hlen; [done|].
  simpl. destruct (Index s sep) as [m|] eqn:Hi; [|done].
  rewrite Join_cons by apply genSplit_nonempty.
  rewrite IH; [by rewrite <-Index_Some|].
  rewrite length_slice_from. pose proof (string_length_nonempty _ Hsep). lia.
Qed.

(** Splitting what was joined gives the parts back. *)
Lemma genSplit_Join budget key sep :
  Unbordered sep → sep ≠ "" → validKey sep key → key ≠ [] →
  String.length (Join key sep) ≤ budget →
  genSplit budget (Join key sep) sep = key.
Proof.
  intros Hub Hsep Hkey. revert budget.
  induction Hkey as [|x rest Hx Hrest IH]; intros budget Hne Hlen; [done|].
  destruct rest as [|y rest].
  - simpl. apply Contains_false in Hx. destruct budget; simpl; by rewrite ?Hx.
  - rewrite Join_cons in * by done.
    rewrite !string_length_app in Hlen.
    pose proof (string_length_nonempty _ Hsep).
    destruct budget as [|budget]; [lia|].
    simpl genSplit. rewrite Index_behind by done.
    rewrite slice_to_app.
    rewrite slice_from_app, slice_from_app0.
    rewrite IH; [done..|]. pose proof (string_length_nonempty _ Hsep). lia.
Qed.

Lemma Split_prefixed s sep :
  sep ≠ "" →
  Split (sep +:+ s) sep = "" :: genSplit (String.length (sep +:+ s) - 1) s sep.
Proof.
  intros Hsep. unfold Split. rewrite decide_False by done.
  destruct (String.length (sep +:+ s)) as [|n] eqn:Hn.
  { rewrite string_length_app in Hn. pose proof (string_length_nonempty _ Hsep). lia. }
  replace (S n - 1) with n by lia. cbn [genSplit].
  assert (Index (sep +:+ s) sep = Some 0) as ->.
  { destruct sep as [|b sep]; [done|]. rewrite string_app_cons. cbn [Index].
    by rewrite <-string_app_cons, HasPrefix_app. }
  change (0 + String.length sep) with (String.length sep).
  rewrite slice_from_app0. by destruct (sep +:+ s).
Qed.

End StringFacts.

(** ** The path codec *)

Section Codec.
Import strings.

Lemma prefixKey_Join sc key :
  key ≠ [] → prefixKey sc key = sc +:+ Join key sc.
Proof.
  induction key as [|x key IH]; [done|]. intros _.
  destruct key as [|y key]; [simpl; by rewrite string_app_nil_r|].
  rewrite Join_cons by done. cbn [prefixKey] in *. by rewrite IH.
Qed.

Lemma prefixKey_app sc key key' :
  prefixKey sc (key ++ key') = prefixKey sc key +:+ prefixKey sc key'.
Proof.
  induction key as [|x key IH]; [done|].
  simpl. by rewrite IH, !string_app_assoc.
Qed.

(** The loop returns early exactly on a part with the special character. *)
Lemma pathLoop_valid sc key pathKey rows :
  validKey sc key →
  pathLoop sc key pathKey rows =
    inr (pathKey +:+ prefixKey sc key, rows ++ edgeRows sc pathKey key).
Proof.
  intros Hkey. revert pathKey rows.
  induction Hkey as [|x key Hx Hkey IH]; intros pathKey rows; simpl.
  - by rewrite string_app_nil_r, List.app_nil_r.
  - rewrite Hx, IH. by rewrite !string_app_assoc, <-List.app_assoc.
Qed.

Lemma pathLoop_inv sc key pathKey rows :
  match pathLoop sc key pathKey rows with
  | inl err => err = ErrReservedCharacterInKey ∧ ¬ validKey sc key
  | inr _ => validKey sc key
  end.
Proof.
  revert pathKey rows. induction key as [|x key IH]; intros pathKey rows; simpl.
  - constructor.
  - destruct (Contains x sc) eqn:Hx.
    + split; [done|]. intros Hv. apply Forall_cons in Hv as [Hv _]. congruence.
    + specialize (IH (pathKey +:+ sc +:+ x)
        (rows ++ [PutRequest {[ "Key" := StringValue (pathKey +:+ sc);
                                "Child" := StringValue x ]}])).
      rewrite string_app_assoc.
      destruct (pathLoop _ _ _ _) as [err|?].
      * destruct IH as [-> Hn]. split; [done|].
        intros Hv. apply Forall_cons in Hv as [_ Hv]. done.
      * by constructor.
Qed.

Lemma length_edgeRows sc pathKey key :
  length (edgeRows sc pathKey key) = length key.
Proof. revert pathKey. induction key; intros; simpl; auto. Qed.

Lemma edgeRows_lookup sc pathKey key i part :
  key !! i = Some part →
  edgeRows sc pathKey key !! i =
    Some (edgeRow (pathKey +:+ prefixKey sc (take i key) +:+ sc) part).
Proof.
  revert pathKey i. induction key as [|x key IH]; intros pathKey i; [done|].
  destruct i as [|i]; simpl.
  - intros [= ->]. done.
  - intros Hi. rewrite (IH _ _ Hi). by rewrite !string_app_assoc.
Qed.

Lemma targetLoop_inv sc target :
  match targetLoop sc target with
  | Some err => err = ErrReservedCharacterInKey
  | None => validKey sc target
  end.
Proof.
  induction target as [|x target IH]; simpl; [constructor|].
  destruct (Contains x sc) eqn:Hx; [done|].
  destruct (targetLoop sc target); [done|]. by constructor.
Qed.

End Codec.

(** C3, as the code has it.  For every path whose parts are free of the
    special character and every index [i] of it, the row the path loop of
    [Put] and [PutLink] emits at step [i] has the sort key [path[i]]; its
    partition key is the special character alone at [i = 0] (the row of a
    root-level child), and the special character, the joined
    [path[0..i-1]] and the special character again at every [i >= 1]. *)
Theorem pathLoop_edge_rows (sc : string) (key : list string) :
  validKey sc key →
  ∃ pathKey rows,
    pathLoop sc key "" [] = inr (pathKey, rows) ∧
    length rows = length key ∧
    ∀ i part, key !! i = Some part →
      rows !! i =
        Some (PutRequest
                {[ "Key" := StringValue
                              match i with
                              | 0 => sc
                              | S _ => sc +:+ strings.Join (take i key) sc +:+ sc
                              end;
                   "Child" := StringValue part ]}).
Proof.
  intros Hkey. eexists _, _. split; [by apply pathLoop_valid|].
  rewrite app_nil_l. split; [apply length_edgeRows|].
  intros i part Hi. rewrite (edgeRows_lookup _ _ _ _ _ Hi). unfold edgeRow.
  destruct i as [|i]; [done|].
  rewrite prefixKey_Join, string_app_nil_l, string_app_assoc; [done|].
  destruct key; done.
Qed.

Lemma pathLoop_edge_rows_witness :
  ∃ pathKey rows,
    pathLoop "/" ["Accounts"; "12345"] "" [] = inr (pathKey, rows) ∧
    length rows = 2 ∧
    rows !! 1 = Some (PutRequest {[ "Key" := StringValue "/Accounts/";
                                    "Child" := StringValue "12345" ]}).
Proof.
  destruct (pathLoop_edge_rows "/" ["Accounts"; "12345"]) as (pk & rows & H1 & H2 & H3).
  - repeat constructor.
  - exists pk, rows. split; [exact H1|]. split; [exact H2|].
    exact (H3 1 "12345" eq_refl).
Defined.

(** C3 as stated fails at [i = 0]: the root-level row of [["a"]] has the
    partition key [sc], not [sc +:+ Join [] sc +:+ sc]. *)
Lemma pathLoop_root_edge_row_single_delimiter :
  ¬ (∀ pathKey rows i part,
       pathLoop DefaultSpecialCharacter ["a"] "" [] = inr (pathKey, rows) →
       ["a"] !! i = Some part →
       rows !! i =
         Some (PutRequest
                 {[ "Key" := StringValue
                               (DefaultSpecialCharacter
                                  +:+ strings.Join (take i ["a"]) DefaultSpecialCharacter
                                  +:+ DefaultSpecialCharacter);
                    "Child" := StringValue part ]})).
Proof.
  intros H. specialize (H _ _ 0 "a" eq_refl eq_refl).
  apply (f_equal (λ row, row ≫= λ r,
            match r with PutRequest item => item !! "Key" | _ => None end)) in H.
  vm_compute in H. discriminate H.
Qed.

(** ** The methods over any service *)

Section Generic.
Context {Svc : Type} `{!API Svc}.

Lemma doInit_self_run {A} (k : Tree Svc → M Svc A) (t : Tree Svc) :
  (doInit ≫= λ _, self ≫= k) t = k (initOnceDo t) (initOnceDo t).
Proof.
  unfold mbind, M_bind, bind, doInit, self. simpl.
  by destruct (k _ _) as [[? ?] ?].
Qed.

Lemma same_config_refl (t : Tree Svc) : same_config t t.
Proof. done. Qed.

Lemma same_config_trans (t1 t2 t3 : Tree Svc) :
  same_config t1 t2 → same_config t2 t3 → same_config t1 t3.
Proof. unfold same_config. intros (-> & -> & ->) (-> & -> & ->). done. Qed.

Lemma initOnceDo_idemp (t : Tree Svc) : initOnceDo (initOnceDo t) = initOnceDo t.
Proof. unfold initOnceDo. by destruct (initOnce t) eqn:E; simpl; rewrite ?E. Qed.

Lemma initOnceDo_DB (t : Tree Svc) : DB (initOnceDo t) = DB t.
Proof.
  unfold initOnceDo, init. destruct (initOnce t); [done|].
  by destruct (decide _).
Qed.

Lemma initOnceDo_TableName (t : Tree Svc) : TableName (initOnceDo t) = TableName t.
Proof.
  unfold initOnceDo, init. destruct (initOnce t); [done|].
  by destruct (decide _).
Qed.

(** *** The resubmission loop *)

Lemma retryLoop_run budget pending (t : Tree Svc) :
  ∃ res t' calls,
    retryLoop budget {| RequestItems := pending |} t = (res, t', calls) ∧
    chunk_run pending calls res ∧ same_config t t'.
Proof.
  revert pending t. induction budget as [|budget IH]; intros pending t.
  { eexists _, _, _. split; [done|]. split; [constructor|done]. }
  cbn [retryLoop]. unfold mbind, M_bind, bind, callBatchWriteItem.
  destruct (BatchWriteItem _ (DB t)) as [[output|err] db].
  - destruct (decide (size (UnprocessedItems output) = 0)) as [Hz|Hnz].
    + eexists _, _, _. split; [done|]. split; [by constructor|done].
    + edestruct (IH (UnprocessedItems output)) as (res & t' & calls & -> & Hrun & Hcfg).
      eexists _, _, _. split; [done|]. split; [by constructor|].
      eapply same_config_trans; [|exact Hcfg]. done.
  - eexists _, _, _. split; [done|]. split; [constructor|done].
Qed.

Lemma chunk_run_res pending calls res :
  chunk_run pending calls res →
  res = Spins ∨ res = Returns None ∨ ∃ err, res = Returns (Some (ErrAWS err)).
Proof. induction 1; eauto. Qed.

Lemma chunk_run_no_calls pending res :
  chunk_run pending [] res → res = Spins.
Proof. by inversion 1. Qed.

(** *** The loop over the chunks *)

Lemma chunks_concat steps l : length l ≤ steps → concat (chunks steps l) = l.
Proof.
  revert l. induction steps as [|steps IH]; intros l Hlen.
  { by destruct l; [|simpl in Hlen; lia]. }
  destruct l as [|x l]; [done|]. cbn [chunks concat].
  rewrite IH; [apply take_drop|]. rewrite length_drop. lia.
Qed.


Lemma slice_chunk (l : list WriteRequest) i :
  slice l i (if decide (length l ≤ i + 25) then length l else i + 25)
  = take 25 (drop i l).
Proof.
  unfold slice. destruct (decide _).
  - rewrite !take_ge; [done|rewrite length_drop; lia..].
  - f_equal. lia.
Qed.

Lemma batchLoop_run steps budget i writeRequests (t : Tree Svc) :
  length writeRequests - i ≤ steps →
  ∃ res t' calls,
    batchLoop steps budget i writeRequests t = (res, t', calls) ∧
    batch_run (TableName t) (chunks steps (drop i writeRequests)) calls res ∧
    same_config t t'.
Proof.
  revert i t. induction steps as [|steps IH]; intros i t Hsteps.
  - cbn [batchLoop]. destruct (decide (i < length writeRequests)); [lia|].
    eexists _, _, _. split; [done|]. split; [constructor|done].
  - cbn [batchLoop]. destruct (decide (i < length writeRequests)) as [Hi|Hi].
    + destruct (drop i writeRequests) as [|x rest] eqn:Hdrop.
      { apply (f_equal length) in Hdrop. rewrite length_drop in Hdrop.
        simpl in Hdrop. lia. }
      cbn [chunks]. rewrite <-Hdrop.
      unfold mbind, M_bind, bind, self. rewrite slice_chunk.
      destruct (retryLoop_run budget
                  {[ TableName t := take 25 (drop i writeRequests) ]} t)
        as (res & t1 & calls & -> & Hrun & Hcfg).
      destruct (chunk_run_res _ _ _ Hrun) as [->|[->|[err ->]]].
      * eexists _, _, _. split; [done|]. split; [|done].
        by apply batch_stop.
      * destruct (IH (i + 25) t1) as (res & t2 & calls' & -> & Hruns & Hcfg');
          [lia|].
        eexists _, _, _. split; [done|].
        rewrite drop_drop. pose proof Hcfg as (HT & _). rewrite HT in Hruns.
        split; [|by eapply same_config_trans].
        rewrite app_nil_l. by eapply batch_next.
      * eexists _, _, _. split; [done|]. rewrite app_nil_r. split; [|done].
        by apply batch_stop.
    + rewrite drop_ge by lia.
      eexists _, _, _. split; [done|]. split; [constructor|done].
Qed.

Lemma batch_run_res table cs calls res :
  batch_run table cs calls res →
  res = Spins ∨ res = Returns None ∨ ∃ err, res = Returns (Some (ErrAWS err)).
Proof.
  induction 1 as [| |???? Hrun]; eauto using chunk_run_res.
Qed.

Lemma batchLoop_res budget writeRequests (t : Tree Svc) res t' calls :
  batchLoop (length writeRequests) budget 0 writeRequests t = (res, t', calls) →
  (res = Spins ∨ res = Returns None ∨ ∃ err, res = Returns (Some (ErrAWS err)))
  ∧ same_config t t'.
Proof.
  intros Hrun.
  destruct (batchLoop_run (length writeRequests) budget 0 writeRequests t)
    as (res' & t'' & calls' & Heq & Hb & Hcfg); [lia|].
  rewrite Hrun in Heq. injection Heq as <- <- <-.
  split; [by eapply batch_run_res|done].
Qed.

(** *** [Put], [PutLink] and [Delete] without the monad *)

Lemma Put_eq {V} `{!Storable V} budget key (item : option V) (t : Tree Svc) :
  Put budget key item t =
    let t0 := initOnceDo t in
    let sc := SpecialCharacter t0 in
    match pathLoop sc key "" [] with
    | inl err => (Returns (Some err), t0, [])
    | inr (pathKey, rows) =>
        match item with
        | None => (Panics "nil pointer dereference", t0, [])
        | Some v =>
            match MarshalDynamoDB v with
            | (_, Some err) => (Returns (Some err), t0, [])
            | (None, None) => (Panics "assignment to entry in nil map", t0, [])
            | (Some attributes, None) =>
                let stored := objectRow sc pathKey attributes in
                if decide (unreserved sc stored)
                then batchLoop (length (rows ++ [PutRequest stored])) budget 0
                       (rows ++ [PutRequest stored]) t0
                else (Returns (Some ErrReservedCharacterInAttribute), t0, [])
            end
        end
    end.
Proof.
  unfold Put. rewrite doInit_self_run. cbn zeta.
  destruct (pathLoop _ _ _ _) as [err|[pathKey rows]]; [done|].
  destruct item as [v|]; [|done].
  destruct (MarshalDynamoDB v) as [[attributes|] [err|]]; try done.
  unfold unreserved, objectRow. by destruct (decide _).
Qed.

Lemma Get_eq {V} `{!Storable V} depth key (ob : option V) (t : Tree Svc) :
  Get (S depth) key ob t =
    let t0 := initOnceDo t in
    let '(resp, db) := GetItem (objectKey t0 key) (DB t0) in
    let t1 := {| TableName := TableName t0; DB := db;
                 SpecialCharacter := SpecialCharacter t0;
                 initOnce := initOnce t0 |} in
    match resp with
    | Failed err => (Returns (Some (ErrAWS err), ob), t1, [])
    | Done resp =>
        if decide (size (get_Item resp) = 0)
        then (Returns (Some ErrNotFound, ob), t1, [])
        else match get_Item resp !! SpecialCharacter t0 with
             | Some linkTarget =>
                 linkKey t0 linkTarget (λ key, Get depth key ob) t1
             | None =>
                 match ob with
                 | None => (Panics "nil pointer dereference", t1, [])
                 | Some v =>
                     match UnmarshalDynamoDB (get_Item resp) v with
                     | (Some err, v') => (Returns (Some err, Some v'), t1, [])
                     | (None, v') => (Returns (None, Some v'), t1, [])
                     end
                 end
             end
    end.
Proof.
  cbn [Get]. rewrite doInit_self_run.
  unfold mbind, M_bind, bind, callGetItem. cbn zeta.
  destruct (GetItem _ _) as [[resp|err] db]; [|done].
  destruct (decide _); [done|].
  destruct (get_Item resp !! _) as [linkTarget|].
  - by destruct (linkKey _ _ _ _) as [[[] ?] ?].
  - destruct ob as [v|]; [|done].
    by destruct (UnmarshalDynamoDB _ _) as [[err|] v'].
Qed.

Lemma PutLink_eq budget key target (t : Tree Svc) :
  PutLink budget key target t =
    let t0 := initOnceDo t in
    let sc := SpecialCharacter t0 in
    match pathLoop sc key "" [] with
    | inl err => (Returns (Some err), t0, [])
    | inr (pathKey, rows) =>
        match targetLoop sc target with
        | Some err => (Returns (Some err), t0, [])
        | None =>
            let link := linkRow sc pathKey target in
            batchLoop (length (rows ++ [PutRequest link])) budget 0
              (rows ++ [PutRequest link]) t0
        end
    end.
Proof.
  unfold PutLink. rewrite doInit_self_run. cbn zeta.
  destruct (pathLoop _ _ _ _) as [err|[pathKey rows]]; [done|].
  by destruct (targetLoop _ _).
Qed.

Lemma Delete_eq budget key (t : Tree Svc) :
  Delete budget key t =
    let t0 := initOnceDo t in
    let sc := SpecialCharacter t0 in
    match length key with
    | 0 => (Panics "slice bounds out of range [:-1]", t0, [])
    | S last =>
        let pathKey := sc +:+ strings.Join (take last key) sc +:+ sc in
        match key !! last with
        | None => (Panics "index out of range", t0, [])
        | Some ChildKey =>
            retryLoop budget
              {| RequestItems :=
                   {[ TableName t0 :=
                        [DeleteRequest {[ "Key" := StringValue pathKey;
                                          "Child" := StringValue ChildKey ]};
                         DeleteRequest {[ "Key" := StringValue (pathKey +:+ ChildKey);
                                          "Child" := StringValue sc ]}] ]} |} t0
        end
    end.
Proof.
  unfold Delete. rewrite doInit_self_run. cbn zeta.
  destruct (length key); [done|]. by destruct (key !! _).
Qed.

Lemma GetLink_eq key (t : Tree Svc) :
  GetLink key t =
    let t0 := initOnceDo t in
    let '(resp, db) := GetItem (objectKey t0 key) (DB t0) in
    let t1 := {| TableName := TableName t0; DB := db;
                 SpecialCharacter := SpecialCharacter t0;
                 initOnce := initOnce t0 |} in
    match resp with
    | Failed err => (Returns ([], Some (ErrAWS err)), t1, [])
    | Done resp =>
        if decide (size (get_Item resp) = 0)
        then (Returns ([], Some ErrNotFound), t1, [])
        else match get_Item resp !! SpecialCharacter t0 with
             | None => (Returns ([], Some ErrNotLink), t1, [])
             | Some linkTarget =>
                 linkKey t0 linkTarget (λ key, ret (key, None)) t1
             end
    end.
Proof.
  unfold GetLink. rewrite doInit_self_run.
  unfold mbind, M_bind, bind, callGetItem. cbn zeta.
  destruct (GetItem _ _) as [[resp|err] db]; [|done].
  destruct (decide _); [done|].
  destruct (get_Item resp !! _) as [linkTarget|]; [|done].
  by destruct (linkKey _ _ _ _) as [[[] ?] ?].
Qed.

End Generic.

(** ** What holds over any service *)


(** C7.  When [Put] returns one of the two errors of the reserved
    character or the error of the serialization, and when [PutLink]
    returns one of the two errors of the reserved character, no batch
    write was issued and the service is in the state it was in. *)
Theorem no_write_before_validation {Svc : Type} `{!API Svc} {V : Type} `{!Storable V}
    (budget : nat) (key target : list string) (item : option V) (t : Tree Svc) :
  (∀ err t' calls,
     Put budget key item t = (Returns (Some err), t', calls) →
     rejected item err → calls = [] ∧ DB t' = DB t) ∧
  (∀ err t' calls,
     PutLink budget key target t = (Returns (Some err), t', calls) →
     err = ErrReservedCharacterInKey ∨ err = ErrReservedCharacterInAttribute →
     calls = [] ∧ DB t' = DB t).
Proof.
  split; intros err t' calls.
  - rewrite Put_eq. cbn zeta. intros Hput Hrej.
    pose proof (pathLoop_inv (SpecialCharacter (initOnceDo t)) key "" []) as Hpath.
    destruct (pathLoop _ _ _ _) as [e|[pathKey rows]].
    { injection Hput as <- <- <-. by rewrite initOnceDo_DB. }
    destruct item as [v|]; [|done].
    destruct (MarshalDynamoDB v) as [[attributes|] [e|]] eqn:Hm;
      try (injection Hput as <- <- <-; by rewrite initOnceDo_DB); [|done].
    destruct (decide (unreserved _ _));
      [|injection Hput as <- <- <-; by rewrite initOnceDo_DB].
    apply batchLoop_res in Hput as [[?|[?|[e ?]]] _]; [done..|].
    simplify_eq. destruct Hrej as [?|[?|(v' & m' & H & Hm')]]; [done..|].
    injection H as <-. by rewrite Hm in Hm'.
  - rewrite PutLink_eq. cbn zeta. intros Hput Herr.
    destruct (pathLoop _ _ _ _) as [e|[pathKey rows]].
    { injection Hput as <- <- <-. by rewrite initOnceDo_DB. }
    destruct (targetLoop _ _).
    { injection Hput as <- <- <-. by rewrite initOnceDo_DB. }
    apply batchLoop_res in Hput as [[?|[?|[e ?]]] _]; [done..|].
    simplify_eq. by destruct Herr.
Qed.

Lemma no_write_before_validation_witness :
  let t := newTree "X" [] in
  (Put 1 ["Accounts"; "12X345"] (Some alice) t).2 = [] ∧
  DB (Put 1 ["Accounts"; "12X345"] (Some alice) t).1.2 = DB t ∧
  (PutLink 1 ["AccountsXEmail"; "alice"] ["Accounts"; "12345"] t).2 = [] ∧
  DB (PutLink 1 ["AccountsXEmail"; "alice"] ["Accounts"; "12345"] t).1.2 = DB t.
Proof.
  intros t.
  destruct (no_write_before_validation 1 ["Accounts"; "12X345"]
              ["Accounts"; "12345"] (Some alice) t) as [HPut _].
  destruct (no_write_before_validation 1 ["AccountsXEmail"; "alice"]
              ["Accounts"; "12345"] (Some alice) t) as [_ HLink].
  destruct (Put 1 ["Accounts"; "12X345"] (Some alice) t)
    as [[r1 t1] c1] eqn:H1.
  destruct (PutLink 1 ["AccountsXEmail"; "alice"] ["Accounts"; "12345"] t)
    as [[r2 t2] c2] eqn:H2.
  assert (r1 = Returns (Some ErrReservedCharacterInKey)) as ->.
  { apply (f_equal (λ r, r.1.1)) in H1. vm_compute in H1. by symmetry. }
  assert (r2 = Returns (Some ErrReservedCharacterInKey)) as ->.
  { apply (f_equal (λ r, r.1.1)) in H2. vm_compute in H2. by symmetry. }
  destruct (HPut _ _ _ eq_refl) as [Hc1 Hd1]; [by left|].
  destruct (HLink _ _ _ eq_refl) as [Hc2 Hd2]; [by left|].
  exact (conj Hc1 (conj Hd1 (conj Hc2 Hd2))).
Defined.

(** C10.  [Delete] indexes the last part of the key.  On the empty key
    that is out of range and the call panics; on every other key the index
    [len(key)-1] is in range and the call does not panic. *)
Theorem Delete_index_in_range {Svc : Type} `{!API Svc}
    (budget : nat) (key : list string) (t : Tree Svc) :
  (key = [] ∧ ∃ msg, Delete budget key t = (Panics msg, initOnceDo t, []))
  ∨ (key ≠ [] ∧ is_Some (key !! (length key - 1)) ∧
     ∀ msg, (Delete budget key t).1.1 ≠ Panics msg).
Proof.
  rewrite Delete_eq. cbn zeta.
  destruct key as [|x key]; [left; eauto|]. right. split; [done|].
  cbn [length]. replace (S (length key) - 1) with (length key) by lia.
  destruct (lookup_lt_is_Some_2 (x :: key) (length key)) as [ChildKey Hlast];
    [simpl; lia|].
  split; [by eexists|]. rewrite Hlast. intros msg.
  edestruct retryLoop_run as (res & t' & calls & -> & Hrun & _).
  apply chunk_run_res in Hrun as [->|[->|[err ->]]]; done.
Qed.

(** C6.  [GetLink] reads the object row of the key.  When the read finds
    no row (an empty item) it fails with [ErrNotFound]; when the row is
    there without the attribute named by the special character it fails
    with [ErrNotLink]; it returns a target only from a row with that
    attribute. *)
Theorem GetLink_errors {Svc : Type} `{!API Svc} (key : list string) (t : Tree Svc) :
  let t0 := initOnceDo t in
  let sc := SpecialCharacter t0 in
  match GetItem (objectKey t0 key) (DB t0) with
  | (Failed err, _) => (GetLink key t).1.1 = Returns ([], Some (ErrAWS err))
  | (Done resp, _) =>
      (size (get_Item resp) = 0 →
       (GetLink key t).1.1 = Returns ([], Some ErrNotFound)) ∧
      (size (get_Item resp) ≠ 0 → get_Item resp !! sc = None →
       (GetLink key t).1.1 = Returns ([], Some ErrNotLink)) ∧
      (∀ target, (GetLink key t).1.1 = Returns (target, None) →
       size (get_Item resp) ≠ 0 ∧ is_Some (get_Item resp !! sc))
  end.
Proof.
  intros t0 sc. rewrite GetLink_eq. cbn zeta. fold t0. fold sc.
  destruct (GetItem _ _) as [[resp|err] db]; [|done].
  destruct (decide (size (get_Item resp) = 0)) as [Hz|Hnz].
  { split; [done|]. split; [done|]. intros target. done. }
  split; [done|]. destruct (get_Item resp !! sc) as [linkTarget|] eqn:Hl.
  - split; [done|]. intros target _. eauto.
  - split; [done|]. intros target. done.
Qed.

(** ** The in-memory service *)

Section Fake.
Implicit Types (db : FakeDynamoDB) (l : list WriteRequest) (k : string * string).
Implicit Types (rows : Table) (t : Tree FakeDynamoDB).

(** *** Requests and rows *)

Lemma untouched_app k l1 l2 :
  untouched k (l1 ++ l2) ↔ untouched k l1 ∧ untouched k l2.
Proof. apply Forall_app. Qed.

Lemma sole_put_app k item l1 l2 :
  sole_put k item (l1 ++ l2) →
  (sole_put k item l1 ∧ untouched k l2) ∨ (untouched k l1 ∧ sole_put k item l2).
Proof.
  induction l1 as [|r l1 IH]; simpl.
  - right. split; [constructor|done].
  - inversion 1 as [? Hk Hun|? ? Hr Hs]; subst.
    + apply untouched_app in Hun as [??]. left. split; [by constructor|done].
    + destruct (IH Hs) as [[??]|[??]].
      * left. split; [by constructor|done].
      * right. split; [by constructor|done].
Qed.

Lemma sole_put_end k item l :
  primaryKey item = Some k → untouched k l → sole_put k item (l ++ [PutRequest item]).
Proof.
  intros Hk. induction 1 as [|r l Hr Hl IH]; simpl.
  - constructor; [done|constructor].
  - by constructor.
Qed.

Lemma splits_app l1 l2 : splits (l1 ++ l2) l1 l2.
Proof.
  intros k. split; [apply untouched_app|]. intros item. apply sole_put_app.
Qed.

Lemma untouched_mask k mask l :
  untouched k l →
  untouched k (processed mask l) ∧ untouched k (unprocessed mask l).
Proof.
  intros Hun. revert mask.
  induction Hun as [|r l Hr Hl IH]; intros mask; [split; constructor|].
  destruct mask as [|[] mask]; simpl;
    [destruct (IH [])|destruct (IH mask)..]; split; try constructor; done.
Qed.

Lemma splits_mask mask l : splits l (processed mask l) (unprocessed mask l).
Proof.
  intros k. split; [apply untouched_mask|].
  intros item Hs. revert mask.
  induction Hs as [l Hk Hun|r l Hr Hs IH]; intros mask.
  - destruct mask as [|[] mask]; simpl;
      [destruct (untouched_mask k [] l Hun)
      |destruct (untouched_mask k mask l Hun)..];
      [left|right|left]; split; try constructor; done.
  - destruct mask as [|[] mask]; simpl;
      [destruct (IH []) as [[??]|[??]]|destruct (IH mask) as [[??]|[??]]..];
      [left|right|left|right|left|right]; split; try constructor; done.
Qed.

Lemma write_untouched rows r k :
  requestKey r ≠ Some k → write rows r !! k = rows !! k.
Proof.
  destruct r as [item|key]; simpl; intros Hk.
  - destruct (primaryKey item) as [k'|]; [|done].
    apply lookup_insert_ne. congruence.
  - destruct (primaryKey key) as [k'|]; [|done].
    apply lookup_delete_ne. congruence.
Qed.

Lemma foldl_write_untouched l rows k :
  untouched k l → foldl write rows l !! k = rows !! k.
Proof.
  intros Hun. revert rows. induction Hun as [|r l Hr Hl IH]; intros rows; [done|].
  simpl. by rewrite IH, write_untouched.
Qed.

Lemma foldl_write_sole l rows k item :
  sole_put k item l → foldl write rows l !! k = Some item.
Proof.
  intros Hs. revert rows. induction Hs as [l Hk Hun|r l Hr Hs IH]; intros rows.
  - simpl. rewrite foldl_write_untouched by done.
    rewrite Hk. apply lookup_insert_eq.
  - simpl. apply IH.
Qed.

(** *** Runs of writes *)

Lemma wrote_none tn l (complete : Prop) db db' :
  tables db' = tables db → ¬ complete → wrote tn l complete db db'.
Proof.
  intros Heq Hc. split; [by rewrite Heq|]. rewrite Heq.
  destruct (tables db !! tn) as [rows|]; [|done].
  exists rows. split; [done|]. intros k. split; [done|]. done.
Qed.

Lemma wrote_nil tn (complete : Prop) db db' :
  tables db' = tables db → wrote tn [] complete db db'.
Proof.
  intros Heq. split; [by rewrite Heq|]. rewrite Heq.
  destruct (tables db !! tn) as [rows|]; [|done].
  exists rows. split; [done|]. intros k. split; [done|]. intros _ item Hs.
  inversion Hs.
Qed.

Lemma wrote_seq tn l l1 l2 (c c1 c2 : Prop) db db1 db2 :
  splits l l1 l2 → (c → c1 ∧ c2) →
  wrote tn l1 c1 db db1 → wrote tn l2 c2 db1 db2 → wrote tn l c db db2.
Proof.
  intros Hsp Hc [Ho1 H1] [Ho2 H2]. split.
  { intros tn' Hne. by rewrite Ho2, Ho1. }
  destruct (tables db !! tn) as [rows|].
  - destruct H1 as (rows1 & Hr1 & H1). rewrite Hr1 in H2.
    destruct H2 as (rows2 & Hr2 & H2). exists rows2. split; [done|].
    intros k. destruct (Hsp k) as [Hun Hsole]. split.
    + intros [Hu1 Hu2]%Hun.
      rewrite (proj1 (H2 k) Hu2). apply (proj1 (H1 k) Hu1).
    + intros [Hc1 Hc2]%Hc item [[Hs Hu]|[Hu Hs]]%Hsole.
      * rewrite (proj1 (H2 k) Hu). by apply (proj2 (H1 k)).
      * by apply (proj2 (H2 k)).
  - by rewrite H1 in H2.
Qed.

Lemma wrote_tables_is_Some tn l (c : Prop) db db' :
  wrote tn l c db db' → is_Some (tables db !! tn) → is_Some (tables db' !! tn).
Proof.
  intros [_ H] [rows Hrows]. rewrite Hrows in H.
  destruct H as (rows' & -> & _). by eexists.
Qed.

(** *** One batch write with one table *)

Lemma next_tables db : tables (next db).2 = tables db.
Proof. unfold next. by destruct (faults db). Qed.

Lemma next_faults db : faults (next db).2 = tail (faults db).
Proof. unfold next. by destruct (faults db) eqn:E; simpl; rewrite ?E. Qed.

Lemma next_healthy db : faults db = [] → next db = (Throttle [], db).
Proof. unfold next. by intros ->. Qed.

Lemma batchWriteItem_singleton tn l db r db' :
  batchWriteItem {| RequestItems := {[ tn := l ]} |} db = (r, db') →
  (∃ err, r = Failed err ∧ tables db' = tables db) ∨
  (∃ mask,
     r = Done {| UnprocessedItems :=
                   match unprocessed mask l with
                   | [] => ∅
                   | u => {[ tn := u ]}
                   end |} ∧
     wrote tn (processed mask l) True db db').
Proof.
  unfold batchWriteItem.
  pose proof (next_tables db) as Hnt.
  destruct (next db) as [[err|mask] db1]; simpl in Hnt.
  { intros [= <- <-]. left. eauto. }
  cbn [RequestItems]. destruct (decide _) as [Hacc|_].
  2:{ intros [= <- <-]. left. eauto. }
  intros [= <- <-]. right. exists mask. split.
  - f_equal. rewrite omap_singleton. by destruct (unprocessed mask l).
  - split; cbn [tables].
    + intros tn' Hne. rewrite lookup_merge, lookup_singleton_ne by done.
      rewrite Hnt. by destruct (tables db !! tn').
    + rewrite lookup_merge, lookup_singleton_eq, Hnt.
      destruct (tables db !! tn) as [rows|]; simpl; [|done].
      eexists. split; [done|]. intros k. split.
      * apply foldl_write_untouched.
      * intros _ item. apply foldl_write_sole.
Qed.

(** *** The loops *)

Lemma retryLoop_wrote budget tn l t res t' calls :
  retryLoop budget {| RequestItems := {[ tn := l ]} |} t = (res, t', calls) →
  wrote tn l (res = Returns None) (DB t) (DB t').
Proof.
  revert l t res t' calls. induction budget as [|budget IH];
    intros l t res t' calls.
  { intros [= <- <- <-]. by apply wrote_none. }
  cbn [retryLoop]. unfold mbind, M_bind, bind, callBatchWriteItem.
  cbn [BatchWriteItem api].
  destruct (batchWriteItem _ (DB t)) as [r db1] eqn:Hcall.
  apply batchWriteItem_singleton in Hcall as [(err & -> & Heq)|(mask & -> & Hw)].
  { intros [= <- <- <-]. by apply wrote_none. }
  cbn [UnprocessedItems].
  destruct (unprocessed mask l) as [|r u] eqn:Hu.
  - rewrite decide_True by apply map_size_empty.
    intros [= <- <- <-]. cbn [DB].
    eapply wrote_seq with (c2 := True); [apply (splits_mask mask)| |exact Hw|].
    + by intros _.
    + rewrite Hu. by apply wrote_nil.
  - rewrite decide_False by (rewrite map_size_singleton; lia).
    destruct (retryLoop budget _ _) as [[res1 t1] calls1] eqn:Hrec.
    intros [= <- <- <-]. apply IH in Hrec. cbn [DB] in Hrec.
    eapply wrote_seq with (c2 := res1 = Returns None);
      [apply (splits_mask mask)| |exact Hw|].
    + by intros ->.
    + by rewrite Hu.
Qed.

Lemma batchLoop_wrote steps budget i writeRequests t res t' calls :
  length writeRequests - i ≤ steps →
  batchLoop steps budget i writeRequests t = (res, t', calls) →
  wrote (TableName t) (drop i writeRequests) (res = Returns None) (DB t) (DB t').
Proof.
  revert i t res t' calls. induction steps as [|steps IH];
    intros i t res t' calls Hsteps; cbn [batchLoop];
    (destruct (decide (i < length writeRequests)) as [Hi|Hi];
     [|rewrite drop_ge by lia; intros [= <- <- <-]; by apply wrote_nil]);
    [lia|].
  unfold mbind, M_bind, bind, self. rewrite slice_chunk.
  destruct (retryLoop budget _ t) as [[res1 t1] calls1] eqn:Hretry.
  destruct (retryLoop_run budget
              {[ TableName t := take 25 (drop i writeRequests) ]} t)
    as (? & ? & ? & Heq & Hrun & Hcfg).
  rewrite Hretry in Heq. injection Heq as <- <- <-.
  apply retryLoop_wrote in Hretry.
  rewrite <-(take_drop 25 (drop i writeRequests)) at 1.
  destruct (chunk_run_res _ _ _ Hrun) as [->|[->|[err ->]]].
  - intros [= <- <- <-].
    eapply wrote_seq with (c2 := False);
      [apply splits_app| |exact Hretry|apply wrote_none; tauto].
    done.
  - destruct (batchLoop steps budget (i + 25) writeRequests t1)
      as [[res2 t2] calls2] eqn:Hrec.
    intros [= <- <- <-]. apply IH in Hrec; [|lia].
    destruct Hcfg as (HT & _). rewrite HT in Hrec. rewrite drop_drop.
    eapply wrote_seq; [apply splits_app| |exact Hretry|exact Hrec].
    by intros ->.
  - intros [= <- <- <-].
    eapply wrote_seq with (c2 := False);
      [apply splits_app| |exact Hretry|apply wrote_none; tauto].
    done.
Qed.

End Fake.

(** ** The methods on the in-memory service *)

Section FakeMethods.
Implicit Types (db : FakeDynamoDB) (l : list WriteRequest) (k : string * string).
Implicit Types (rows : Table) (t : Tree FakeDynamoDB).

(** *** The rows and their keys *)

Lemma primaryKey_objectRow sc pathKey attributes :
  primaryKey (objectRow sc pathKey attributes) = Some (pathKey, sc).
Proof.
  unfold primaryKey, objectRow. by simplify_map_eq.
Qed.

Lemma primaryKey_linkRow sc pathKey target :
  sc ≠ "Key" → sc ≠ "Child" →
  primaryKey (linkRow sc pathKey target) = Some (pathKey, sc).
Proof.
  intros HK HC. unfold primaryKey, linkRow. by simplify_map_eq.
Qed.

Lemma requestKey_edgeRow pathKey part :
  requestKey (edgeRow pathKey part) = Some (pathKey, part).
Proof.
  unfold edgeRow, requestKey, primaryKey. by simplify_map_eq.
Qed.

Lemma primaryKey_pair pathKey child :
  primaryKey {[ "Key" := StringValue pathKey; "Child" := StringValue child ]}
  = Some (pathKey, child).
Proof. apply requestKey_edgeRow. Qed.

Lemma edgeRows_keys sc pathKey key :
  Forall (λ r, is_Some (requestKey r)) (edgeRows sc pathKey key).
Proof.
  revert pathKey. induction key as [|x key IH]; intros pathKey; simpl;
    constructor; [|apply IH]. rewrite requestKey_edgeRow. by eexists.
Qed.

(** The rows of the prefixes of a valid key are not object rows. *)
Lemma untouched_edgeRows sc pathKey key objectPath :
  validKey sc key → untouched (objectPath, sc) (edgeRows sc pathKey key).
Proof.
  intros Hkey. revert pathKey.
  induction Hkey as [|x key Hx Hkey IH]; intros pathKey; simpl;
    constructor; [|apply IH].
  rewrite requestKey_edgeRow. intros [= _ ->].
  by rewrite Contains_refl in Hx.
Qed.

Lemma unreserved_no_link sc row : unreserved sc row → row !! sc = None.
Proof.
  intros Hrow. destruct (row !! sc) as [x|] eqn:Hx; [|done].
  apply Hrow in Hx. by rewrite HasPrefix_refl in Hx.
Qed.

(** *** The tree *)

Lemma initOnceDo_initOnce {Svc} (t : Tree Svc) : initOnce (initOnceDo t) = true.
Proof. unfold initOnceDo. by destruct (initOnce t) eqn:E. Qed.

Lemma initOnceDo_done {Svc} (t : Tree Svc) : initOnce t = true → initOnceDo t = t.
Proof. unfold initOnceDo. by intros ->. Qed.

Lemma initOnceDo_SpecialCharacter {Svc} (t : Tree Svc) :
  initOnce t = false → SpecialCharacter (initOnceDo t) ≠ "".
Proof.
  unfold initOnceDo, init. intros ->.
  by destruct (decide (SpecialCharacter t = "")).
Qed.

Lemma Tree_eta {Svc} (t : Tree Svc) :
  {| TableName := TableName t; DB := DB t;
     SpecialCharacter := SpecialCharacter t; initOnce := initOnce t |} = t.
Proof. by destruct t. Qed.

(** *** Writes *)

Lemma Put_wrote {V} `{!Storable V} budget key (item : option V) t res t' calls :
  Put budget key item t = (res, t', calls) →
  let t0 := initOnceDo t in
  let sc := SpecialCharacter t0 in
  same_config t0 t' ∧
  ((res ≠ Returns None ∧ DB t' = DB t) ∨
   ∃ v attributes,
     item = Some v ∧ validKey sc key ∧
     MarshalDynamoDB v = (Some attributes, None) ∧
     unreserved sc (objectRow sc (prefixKey sc key) attributes) ∧
     wrote (TableName t)
       (edgeRows sc "" key ++ [PutRequest (objectRow sc (prefixKey sc key) attributes)])
       (res = Returns None) (DB t) (DB t')).
Proof.
  rewrite Put_eq. cbn zeta. intros Hput.
  pose proof (pathLoop_inv (SpecialCharacter (initOnceDo t)) key "" []) as Hpath.
  destruct (pathLoop _ _ _ _) as [e|[pathKey rows]] eqn:Hloop.
  { injection Hput as <- <- <-. split; [done|]. left. by rewrite initOnceDo_DB. }
  rewrite (pathLoop_valid _ _ _ _ Hpath) in Hloop. injection Hloop as <- <-.
  destruct item as [v|].
  2:{ injection Hput as <- <- <-. split; [done|]. left. by rewrite initOnceDo_DB. }
  destruct (MarshalDynamoDB v) as [[attributes|] [e|]] eqn:Hm;
    try (injection Hput as <- <- <-; split; [done|]; left;
         by rewrite initOnceDo_DB).
  destruct (decide (unreserved _ _)) as [Hun|_].
  2:{ injection Hput as <- <- <-. split; [done|]. left. by rewrite initOnceDo_DB. }
  pose proof (batchLoop_res _ _ _ _ _ _ Hput) as [_ Hcfg].
  split; [done|]. right. exists v, attributes.
  apply batchLoop_wrote in Hput; [|lia].
  rewrite drop_0, initOnceDo_TableName, initOnceDo_DB in Hput. done.
Qed.

Lemma PutLink_wrote budget key target t res t' calls :
  PutLink budget key target t = (res, t', calls) →
  let t0 := initOnceDo t in
  let sc := SpecialCharacter t0 in
  same_config t0 t' ∧
  ((res ≠ Returns None ∧ DB t' = DB t) ∨
   (validKey sc key ∧ validKey sc target ∧
    wrote (TableName t)
      (edgeRows sc "" key ++ [PutRequest (linkRow sc (prefixKey sc key) target)])
      (res = Returns None) (DB t) (DB t'))).
Proof.
  rewrite PutLink_eq. cbn zeta. intros Hput.
  pose proof (pathLoop_inv (SpecialCharacter (initOnceDo t)) key "" []) as Hpath.
  destruct (pathLoop _ _ _ _) as [e|[pathKey rows]] eqn:Hloop.
  { injection Hput as <- <- <-. split; [done|]. left. by rewrite initOnceDo_DB. }
  rewrite (pathLoop_valid _ _ _ _ Hpath) in Hloop. injection Hloop as <- <-.
  pose proof (targetLoop_inv (SpecialCharacter (initOnceDo t)) target) as Htarget.
  destruct (targetLoop _ _).
  { injection Hput as <- <- <-. split; [done|]. left. by rewrite initOnceDo_DB. }
  pose proof (batchLoop_res _ _ _ _ _ _ Hput) as [_ Hcfg].
  split; [done|]. right.
  apply batchLoop_wrote in Hput; [|lia].
  rewrite drop_0, initOnceDo_TableName, initOnceDo_DB in Hput. done.
Qed.

(** *** A service without faults *)

Lemma unprocessed_nil l : unprocessed [] l = [].
Proof. induction l; simpl; auto. Qed.

Lemma retryLoop_healthy tn l t :
  faults (DB t) = [] → is_Some (tables (DB t) !! tn) →
  0 < length l ≤ 25 → Forall (λ r, is_Some (requestKey r)) l →
  ∃ t' calls,
    retryLoop 1 {| RequestItems := {[ tn := l ]} |} t = (Returns None, t', calls) ∧
    faults (DB t') = [] ∧ is_Some (tables (DB t') !! tn) ∧ same_config t t'.
Proof.
  intros Hf [rows Hrows] Hlen Hkeys.
  cbn [retryLoop]. unfold mbind, M_bind, bind, callBatchWriteItem.
  cbn [BatchWriteItem api]. unfold batchWriteItem.
  rewrite (next_healthy _ Hf). cbn [RequestItems].
  rewrite decide_True.
  2:{ split; [apply map_non_empty_singleton|].
      apply map_Forall_singleton. split; [by eexists|]. split; [lia|].
      split; [lia|done]. }
  cbn [UnprocessedItems]. rewrite omap_singleton, unprocessed_nil.
  rewrite decide_True by apply map_size_empty.
  eexists _, _. split; [done|]. cbn [DB faults tables].
  split; [done|]. split; [|done].
  rewrite lookup_merge, Hrows, lookup_singleton_eq. by eexists.
Qed.

Lemma batchLoop_healthy steps i writeRequests t :
  faults (DB t) = [] → is_Some (tables (DB t) !! TableName t) →
  Forall (λ r, is_Some (requestKey r)) writeRequests →
  length writeRequests - i ≤ steps →
  ∃ t' calls,
    batchLoop steps 1 i writeRequests t = (Returns None, t', calls) ∧
    faults (DB t') = [] ∧ same_config t t'.
Proof.
  intros Hf Ht Hkeys. revert i t Hf Ht.
  induction steps as [|steps IH]; intros i t Hf Ht Hsteps; cbn [batchLoop];
    (destruct (decide (i < length writeRequests)) as [Hi|Hi];
     [|by eexists _, _]); [lia|].
  unfold mbind, M_bind, bind, self. rewrite slice_chunk.
  destruct (retryLoop_healthy (TableName t) (take 25 (drop i writeRequests)) t)
    as (t1 & calls1 & -> & Hf1 & Ht1 & Hcfg); [done|done| | |].
  { rewrite length_take, length_drop. lia. }
  { by apply Forall_take, Forall_drop. }
  pose proof Hcfg as (HT & _). rewrite <-HT in Ht1.
  destruct (IH (i + 25) t1 Hf1 Ht1) as (t2 & calls2 & -> & Hf2 & Hcfg2); [lia|].
  eexists _, _. split; [done|]. split; [done|].
  by eapply same_config_trans.
Qed.

(** *** Reads *)

Lemma primaryKey_objectKey t key :
  primaryKey (get_Key (objectKey t key)) =
    Some (SpecialCharacter t +:+ strings.Join key (SpecialCharacter t),
          SpecialCharacter t).
Proof. apply primaryKey_pair. Qed.

Lemma GetItem_healthy t key rows :
  faults (DB t) = [] → tables (DB t) !! TableName t = Some rows →
  GetItem (objectKey t key) (DB t) =
    (Done {| get_Item :=
               default ∅ (rows !! (SpecialCharacter t
                                     +:+ strings.Join key (SpecialCharacter t),
                                   SpecialCharacter t)) |},
     DB t).
Proof.
  intros Hf Hrows. cbn [GetItem api]. unfold getItem.
  rewrite (next_healthy _ Hf), primaryKey_objectKey.
  cbn [get_TableName objectKey]. by rewrite Hrows.
Qed.

End FakeMethods.

(** ** Writing and reading back *)

Section RoundTrip.
Implicit Types (t : Tree FakeDynamoDB) (rows : Table).

Lemma run_split {A} (r : outcome A * Tree FakeDynamoDB * list WriteCall) :
  r = (r.1.1, after r, r.2).
Proof. by destruct r as [[? ?] ?]. Qed.

Lemma run_after {A} (r : outcome A * Tree FakeDynamoDB * list WriteCall) a :
  r.1.1 = Returns a → r = (Returns a, after r, r.2).
Proof. destruct r as [[? ?] ?]. simpl. by intros ->. Qed.

(** Reading a row that is there. *)
Lemma Get_row {V} `{!Storable V} depth t key (ob : option V) rows row :
  let sc := SpecialCharacter t in
  initOnce t = true → faults (DB t) = [] →
  tables (DB t) !! TableName t = Some rows →
  rows !! (sc +:+ strings.Join key sc, sc) = Some row → row ≠ ∅ →
  Get (S depth) key ob t =
    match row !! sc with
    | Some linkTarget => linkKey t linkTarget (λ key, Get depth key ob) t
    | None =>
        match ob with
        | None => (Panics "nil pointer dereference", t, [])
        | Some v =>
            match UnmarshalDynamoDB row v with
            | (Some err, v') => (Returns (Some err, Some v'), t, [])
            | (None, v') => (Returns (None, Some v'), t, [])
            end
        end
    end.
Proof.
  intros sc Hinit Hf Hrows Hrow Hne. rewrite Get_eq. cbn zeta.
  rewrite (initOnceDo_done _ Hinit), (GetItem_healthy _ _ _ Hf Hrows).
  rewrite Tree_eta. fold sc. rewrite Hrow. cbn [default get_Item].
  by rewrite decide_False by by apply map_size_non_empty_iff.
Qed.

Lemma GetLink_row t key rows row :
  let sc := SpecialCharacter t in
  initOnce t = true → faults (DB t) = [] →
  tables (DB t) !! TableName t = Some rows →
  rows !! (sc +:+ strings.Join key sc, sc) = Some row → row ≠ ∅ →
  GetLink key t =
    match row !! sc with
    | None => (Returns ([], Some ErrNotLink), t, [])
    | Some linkTarget => linkKey t linkTarget (λ key, ret (key, None)) t
    end.
Proof.
  intros sc Hinit Hf Hrows Hrow Hne. rewrite GetLink_eq. cbn zeta.
  rewrite (initOnceDo_done _ Hinit), (GetItem_healthy _ _ _ Hf Hrows).
  rewrite Tree_eta. fold sc. rewrite Hrow. cbn [default get_Item].
  by rewrite decide_False by by apply map_size_non_empty_iff.
Qed.

Lemma objectRow_nonempty sc pathKey attributes : objectRow sc pathKey attributes ≠ ∅.
Proof. apply insert_non_empty. Qed.

Lemma linkRow_nonempty sc pathKey target : linkRow sc pathKey target ≠ ∅.
Proof. apply insert_non_empty. Qed.

(** What a successful [Put] leaves in the table. *)
Lemma Put_stored {V} `{!Storable V} budget key (v : V) attributes t t1 calls :
  let sc := SpecialCharacter (initOnceDo t) in
  key ≠ [] → MarshalDynamoDB v = (Some attributes, None) →
  is_Some (tables (DB t) !! TableName t) →
  Put budget key (Some v) t = (Returns None, t1, calls) →
  same_config (initOnceDo t) t1 ∧ validKey sc key ∧
  unreserved sc (objectRow sc (sc +:+ strings.Join key sc) attributes) ∧
  ∃ rows1,
    tables (DB t1) !! TableName t = Some rows1 ∧
    rows1 !! (sc +:+ strings.Join key sc, sc)
      = Some (objectRow sc (sc +:+ strings.Join key sc) attributes).
Proof.
  intros sc Hkey Hm [rows Hrows] Hput.
  apply Put_wrote in Hput as [Hcfg [[? _]|Hput]]; [done|].
  destruct Hput as (v' & attributes' & [= <-] & Hvalid & Hm' & Hun & [_ Hw]).
  rewrite Hm in Hm'. injection Hm' as <-. fold sc in Hvalid, Hun, Hw.
  rewrite prefixKey_Join in * by done.
  split; [done|]. split; [done|]. split; [done|].
  rewrite Hrows in Hw. destruct Hw as (rows1 & Hrows1 & Hw).
  exists rows1. split; [done|].
  apply (Hw (sc +:+ strings.Join key sc, sc)); [done|].
  apply sole_put_end; [apply primaryKey_objectRow|by apply untouched_edgeRows].
Qed.

(** On a service without faults [Put] goes through. *)
Lemma Put_healthy {V} `{!Storable V} key (v : V) attributes t :
  let sc := SpecialCharacter (initOnceDo t) in
  validKey sc key → MarshalDynamoDB v = (Some attributes, None) →
  unreserved sc (objectRow sc (prefixKey sc key) attributes) →
  is_Some (tables (DB t) !! TableName t) → faults (DB t) = [] →
  ∃ t1 calls,
    Put 1 key (Some v) t = (Returns None, t1, calls) ∧ faults (DB t1) = [].
Proof.
  intros sc Hvalid Hm Hun Ht Hf. rewrite Put_eq. cbn zeta. fold sc.
  rewrite (pathLoop_valid _ _ _ _ Hvalid), Hm.
  rewrite string_app_nil_l, app_nil_l, decide_True by done.
  edestruct (batchLoop_healthy) as (t1 & calls & -> & Hf1 & _); [..|by eauto].
  - by rewrite initOnceDo_DB.
  - by rewrite initOnceDo_DB, initOnceDo_TableName.
  - apply Forall_app. split; [apply edgeRows_keys|].
    constructor; [|done]. simpl. rewrite primaryKey_objectRow. by eexists.
  - lia.
Qed.

End RoundTrip.

(** C2, as the code has it.  For every non-empty path whose parts are free
    of the special character, and every value whose serialization
    succeeds: when no attribute name of the row as it is stored (the
    serialized attributes, with [Key] and [Child] set to the keys of the
    row) starts with the special character, and that stored row
    deserializes to [v], then [Put] goes through on a service without
    faults, and after every [Put] that returned nil a [Get] of the path
    returns nil and yields [v]. *)
Theorem Put_then_Get {V : Type} `{!Storable V} (t : Tree FakeDynamoDB)
    (key : list string) (v ob : V) (attributes : Item) :
  let sc := SpecialCharacter (initOnceDo t) in
  let stored := objectRow sc (sc +:+ strings.Join key sc) attributes in
  key ≠ [] → validKey sc key →
  MarshalDynamoDB v = (Some attributes, None) →
  unreserved sc stored →
  UnmarshalDynamoDB stored ob = (None, v) →
  is_Some (tables (DB t) !! TableName t) →
  (faults (DB t) = [] → (Put 1 key (Some v) t).1.1 = Returns None) ∧
  (∀ budget t1 calls,
     Put budget key (Some v) t = (Returns None, t1, calls) →
     faults (DB t1) = [] →
     Get 1 key (Some ob) t1 = (Returns (None, Some v), t1, [])).
Proof.
  intros sc stored Hkey Hvalid Hm Hun Hob Ht. split.
  - intros Hf. edestruct (Put_healthy key v attributes t) as (t1 & calls & -> & _);
      try done.
    by rewrite prefixKey_Join.
  - intros budget t1 calls Hput Hf1.
    apply Put_stored with (attributes := attributes) in Hput
      as ((HT & HS & HI) & _ & _ & rows1 & Hrows1 & Hrow); [|done..].
    rewrite initOnceDo_TableName in HT. rewrite initOnceDo_initOnce in HI.
    fold sc in HS, Hrow.
    erewrite Get_row; [|done|done|by rewrite HT|by rewrite HS|].
    2:{ apply objectRow_nonempty. }
    rewrite HS. fold stored. by rewrite (unreserved_no_link _ _ Hun), Hob.
Qed.

Lemma Put_then_Get_witness :
  let t := newTree "" [Throttle [true]; Throttle [false; true]] in
  (Put 1 ["Accounts"; "12345"] (Some alice) (newTree "" [])).1.1 = Returns None ∧
  Get 1 ["Accounts"; "12345"] (Some blank)
    (after (Put 3 ["Accounts"; "12345"] (Some alice) t))
  = (Returns (None, Some alice),
     after (Put 3 ["Accounts"; "12345"] (Some alice) t), []).
Proof.
  intros t.
  assert (∀ fs,
    let t := newTree "" fs in
    (faults (DB t) = [] →
     (Put 1 ["Accounts"; "12345"] (Some alice) t).1.1 = Returns None) ∧
    (∀ budget t1 calls,
       Put budget ["Accounts"; "12345"] (Some alice) t = (Returns None, t1, calls) →
       faults (DB t1) = [] →
       Get 1 ["Accounts"; "12345"] (Some blank) t1
       = (Returns (None, Some alice), t1, []))) as H.
  { intros fs. eapply (Put_then_Get (newTree "" fs)).
    - done.
    - repeat constructor.
    - reflexivity.
    - by_compute.
    - reflexivity.
    - by eexists. }
  split; [by apply (H [])|].
  assert ((Put 3 ["Accounts"; "12345"] (Some alice) t).1.1 = Returns None)
    as Hput by by vm_compute.
  apply (proj2 (H _) 3 _ _ (run_after _ None Hput)). by vm_compute.
Defined.

(** C2 as stated fails on a value with an attribute named [Key]: its
    serialization succeeds, has no reserved attribute name and
    deserializes back to it, but [Put] overwrites the attribute with the
    key of the row, and [Get] yields another value. *)
Lemma Put_then_Get_overwrites_Key :
  let sc := DefaultSpecialCharacter in
  let v := {| Key := "http://example.com/" |} in
  let t := newTree "" [] in
  validKey sc ["xyzpdq"] ∧
  (∃ attributes,
     MarshalDynamoDB v = (Some attributes, None) ∧ unreserved sc attributes ∧
     UnmarshalDynamoDB attributes {| Key := "" |} = (None, v)) ∧
  (Put 1 ["xyzpdq"] (Some v) t).1.1 = Returns None ∧
  (Get 1 ["xyzpdq"] (Some {| Key := "" |}) (after (Put 1 ["xyzpdq"] (Some v) t))).1.1
  = Returns (None, Some {| Key := sc +:+ "xyzpdq" |}) ∧
  {| Key := sc +:+ "xyzpdq" |} ≠ v.
Proof.
  intros sc v t. split; [repeat constructor|]. split.
  { eexists. split; [reflexivity|]. split; [by_compute|reflexivity]. }
  split; [by vm_compute|]. split; [by vm_compute|]. by vm_compute.
Qed.

(** ** Links *)

Section Links.
Implicit Types (t : Tree FakeDynamoDB) (rows : Table).

(** What a successful [PutLink] leaves in the table. *)
Lemma PutLink_stored budget key target t t1 calls rows :
  let sc := SpecialCharacter (initOnceDo t) in
  key ≠ [] → sc ≠ "Key" → sc ≠ "Child" →
  tables (DB t) !! TableName t = Some rows →
  PutLink budget key target t = (Returns None, t1, calls) →
  same_config (initOnceDo t) t1 ∧ validKey sc key ∧ validKey sc target ∧
  ∃ rows1,
    tables (DB t1) !! TableName t = Some rows1 ∧
    rows1 !! (sc +:+ strings.Join key sc, sc)
      = Some (linkRow sc (sc +:+ strings.Join key sc) target) ∧
    ∀ objectPath, objectPath ≠ sc +:+ strings.Join key sc →
      rows1 !! (objectPath, sc) = rows !! (objectPath, sc).
Proof.
  intros sc Hkey HK HC Hrows Hput.
  apply PutLink_wrote in Hput as [Hcfg [[? _]|Hput]]; [done|].
  destruct Hput as (Hvalid & Htarget & [_ Hw]). fold sc in Hvalid, Htarget, Hw.
  rewrite prefixKey_Join in * by done.
  split; [done|]. split; [done|]. split; [done|].
  rewrite Hrows in Hw. destruct Hw as (rows1 & Hrows1 & Hw).
  exists rows1. split; [done|]. split.
  - apply (Hw (sc +:+ strings.Join key sc, sc)); [done|].
    apply sole_put_end; [by apply primaryKey_linkRow|by apply untouched_edgeRows].
  - intros objectPath Hne. apply (Hw (objectPath, sc)).
    apply untouched_app. split; [by apply untouched_edgeRows|].
    constructor; [|constructor]. simpl. rewrite primaryKey_linkRow by done.
    congruence.
Qed.

Lemma PutLink_healthy key target t :
  let sc := SpecialCharacter (initOnceDo t) in
  validKey sc key → validKey sc target → sc ≠ "Key" → sc ≠ "Child" →
  is_Some (tables (DB t) !! TableName t) → faults (DB t) = [] →
  ∃ t1 calls,
    PutLink 1 key target t = (Returns None, t1, calls) ∧ faults (DB t1) = [].
Proof.
  intros sc Hvalid Htarget HK HC Ht Hf. rewrite PutLink_eq. cbn zeta. fold sc.
  rewrite (pathLoop_valid _ _ _ _ Hvalid).
  pose proof (targetLoop_inv sc target) as Hloop.
  destruct (targetLoop sc target) as [err|] eqn:Ht'.
  { clear Hloop. induction Htarget as [|x target Hx _ IH]; [done|].
    simpl in Ht'. rewrite Hx in Ht'. auto. }
  rewrite string_app_nil_l, app_nil_l.
  edestruct (batchLoop_healthy) as (t1 & calls & -> & Hf1 & _); [..|by eauto].
  - by rewrite initOnceDo_DB.
  - by rewrite initOnceDo_DB, initOnceDo_TableName.
  - apply Forall_app. split; [apply edgeRows_keys|].
    constructor; [|done]. simpl. rewrite primaryKey_linkRow by done. by eexists.
  - lia.
Qed.

Lemma linkRow_target sc pathKey target :
  linkRow sc pathKey target !! sc
  = Some (StringValue (sc +:+ strings.Join target sc)).
Proof. apply lookup_insert_eq. Qed.

(** The key [Get] and [GetLink] read out of a link row. *)
Lemma linkKey_target {A} t target (k : list string → M FakeDynamoDB A) :
  let sc := SpecialCharacter t in
  sc ≠ "" →
  linkKey t (StringValue (sc +:+ strings.Join target sc)) k
  = k (strings.genSplit (String.length (sc +:+ strings.Join target sc) - 1)
         (strings.Join target sc) sc).
Proof.
  intros sc Hsc. unfold linkKey. cbn [av_S StringValue]. fold sc.
  by rewrite Split_prefixed.
Qed.

Lemma validKey_nonempty sc key : validKey sc key → key ≠ [] → sc ≠ "".
Proof.
  intros Hvalid Hkey ->. destruct Hvalid as [|x key Hx _]; [done|].
  by rewrite Contains_nil in Hx.
Qed.

Lemma linkKey_budget sc s :
  sc ≠ "" → String.length s ≤ String.length (sc +:+ s) - 1.
Proof.
  intros Hsc. rewrite string_length_app.
  pose proof (string_length_nonempty _ Hsc). lia.
Qed.

Lemma unreserved_objectRow sc pathKey attributes :
  unreserved sc (objectRow sc pathKey attributes) → sc ≠ "Key" ∧ sc ≠ "Child".
Proof.
  intros Hun. split; intros ->.
  - assert (strings.HasPrefix "Key" "Key" = false) as Hp; [|done].
    eapply (Hun "Key"). unfold objectRow. by simplify_map_eq.
  - assert (strings.HasPrefix "Child" "Child" = false) as Hp; [|done].
    eapply (Hun "Child"). unfold objectRow. by simplify_map_eq.
Qed.

End Links.

(** C4, as the code has it.  For paths [p] and [q], both non-empty, whose
    object rows differ (their keys flatten to different strings): after a
    [Put(q, v)] and a [PutLink(p, q)] that returned nil, [Get(p)] finds
    the row with the reserved link attribute, does not deserialize it,
    fetches the path named by the attribute and returns what is stored at
    [q]: the value [v], when the row of [q] deserializes to it. *)
Theorem Get_follows_link {V : Type} `{!Storable V} (t t1 t2 : Tree FakeDynamoDB)
    (budget budget' : nat) (key target : list string) (v ob : V)
    (attributes : Item) (calls calls' : list WriteCall) :
  let sc := SpecialCharacter (initOnceDo t) in
  let stored := objectRow sc (sc +:+ strings.Join target sc) attributes in
  key ≠ [] → target ≠ [] →
  sc +:+ strings.Join key sc ≠ sc +:+ strings.Join target sc →
  is_Some (tables (DB t) !! TableName t) →
  MarshalDynamoDB v = (Some attributes, None) →
  UnmarshalDynamoDB stored ob = (None, v) →
  Put budget target (Some v) t = (Returns None, t1, calls) →
  PutLink budget' key target t1 = (Returns None, t2, calls') →
  faults (DB t2) = [] →
  Get 2 key (Some ob) t2 = (Returns (None, Some v), t2, []).
Proof.
  intros sc stored Hkey Htarget Hne Ht Hm Hob Hput Hlink Hf2.
  apply Put_stored with (attributes := attributes) in Hput
    as ((HT & HS & HI) & Hvalid & Hun & rows1 & Hrows1 & Hrow); [|done..].
  rewrite initOnceDo_TableName in HT. rewrite initOnceDo_initOnce in HI.
  fold sc in HS, Hvalid, Hun, Hrow. fold stored in Hun, Hrow.
  pose proof (validKey_nonempty _ _ Hvalid Htarget) as Hsc.
  destruct (unreserved_objectRow _ _ _ Hun) as [HK HC].
  assert (initOnceDo t1 = t1) as Hinit1 by by apply initOnceDo_done.
  rewrite <-HT in Hrows1.
  apply PutLink_stored with (rows := rows1) in Hlink
    as ((HT2 & HS2 & HI2) & _ & _ & rows2 & Hrows2 & Hrow2 & Hother);
    rewrite ?Hinit1, ?HS; [|done..].
  rewrite Hinit1 in HT2, HS2, HI2, Hrow2, Hother.
  rewrite HS in HS2, Hrow2, Hother. rewrite HI in HI2.
  erewrite Get_row;
    [|done|done|rewrite HT2; exact Hrows2|rewrite HS2; exact Hrow2
     |apply linkRow_nonempty].
  rewrite HS2, linkRow_target. rewrite <-HS2 at 1 2.
  rewrite linkKey_target by by rewrite HS2. rewrite HS2.
  erewrite Get_row;
    [|done|done|rewrite HT2; exact Hrows2
     |rewrite HS2, Join_genSplit by auto using linkKey_budget;
      rewrite Hother by done; exact Hrow
     |apply objectRow_nonempty].
  rewrite HS2. by rewrite (unreserved_no_link _ _ Hun), Hob.
Qed.

Lemma Get_follows_link_witness :
  let t := newTree "" [Throttle [true; true]] in
  let t1 := after (Put 2 ["Accounts"; "12345"] (Some alice) t) in
  let t2 := after (PutLink 1 ["AccountsByEmail"; "alice@example.com"]
                     ["Accounts"; "12345"] t1) in
  Get 2 ["AccountsByEmail"; "alice@example.com"] (Some blank) t2
  = (Returns (None, Some alice), t2, []).
Proof.
  intros t t1 t2.
  eapply (Get_follows_link t t1 t2 2 1
            ["AccountsByEmail"; "alice@example.com"] ["Accounts"; "12345"]
            alice blank).
  - done.
  - done.
  - intros Heq. vm_compute in Heq. congruence.
  - by eexists.
  - reflexivity.
  - reflexivity.
  - apply run_after. by vm_compute.
  - apply run_after. by vm_compute.
  - by vm_compute.
Defined.

(** C4 as stated fails for a link to its own path: the link row replaces
    the object row, and [Get] redirects to the same path without end. *)
Lemma Get_self_link_spins :
  let key := ["Accounts"; "12345"] in
  let t1 := after (Put 1 key (Some alice) (newTree "" [])) in
  let t2 := after (PutLink 1 key key t1) in
  (Put 1 key (Some alice) (newTree "" [])).1.1 = Returns None ∧
  (PutLink 1 key key t1).1.1 = Returns None ∧
  ∀ depth, (Get depth key (Some blank) t2).1.1 = Spins.
Proof.
  intros key t1 t2. split; [by vm_compute|]. split; [by vm_compute|].
  assert (∃ rows,
            initOnce t2 = true ∧ faults (DB t2) = [] ∧
            SpecialCharacter t2 = DefaultSpecialCharacter ∧
            tables (DB t2) !! TableName t2 = Some rows ∧
            rows !! (DefaultSpecialCharacter
                       +:+ strings.Join key DefaultSpecialCharacter,
                     DefaultSpecialCharacter)
            = Some (linkRow DefaultSpecialCharacter
                      (DefaultSpecialCharacter
                         +:+ strings.Join key DefaultSpecialCharacter) key))
    as (rows & HI & Hf & HS & Hrows & Hrow).
  { eexists. repeat split; by vm_compute. }
  clearbody t2. clear t1. intros depth.
  induction depth as [|depth IH]; [done|].
  erewrite Get_row;
    [|done|done|done|by rewrite HS|apply linkRow_nonempty].
  rewrite HS, linkRow_target. rewrite <-HS at 1 2.
  rewrite linkKey_target by by rewrite HS. rewrite HS.
  exact IH.
Qed.

(** C5, as the code has it.  For a special character that is unbordered
    (as every single character is) and is not one of the attribute names
    [Key] and [Child]: for every non-empty link path and non-empty target
    path whose parts are free of the special character, [PutLink] goes
    through on a service without faults, and after every [PutLink] that
    returned nil [GetLink] of the link path returns exactly the parts of
    the target, and follows no further link. *)
Theorem PutLink_then_GetLink (t : Tree FakeDynamoDB) (key target : list string) :
  let sc := SpecialCharacter (initOnceDo t) in
  Unbordered sc → sc ≠ "Key" → sc ≠ "Child" →
  key ≠ [] → target ≠ [] → validKey sc key → validKey sc target →
  is_Some (tables (DB t) !! TableName t) →
  (faults (DB t) = [] → (PutLink 1 key target t).1.1 = Returns None) ∧
  (∀ budget t1 calls,
     PutLink budget key target t = (Returns None, t1, calls) →
     faults (DB t1) = [] →
     GetLink key t1 = (Returns (target, None), t1, [])).
Proof.
  intros sc Hub HK HC Hkey Htarget Hvalid Hvalid' [rows Hrows]. split.
  - intros Hf.
    by edestruct (PutLink_healthy key target t) as (t1 & calls & -> & _).
  - intros budget t1 calls Hlink Hf1.
    pose proof (validKey_nonempty _ _ Hvalid Hkey) as Hsc.
    apply PutLink_stored with (rows := rows) in Hlink
      as ((HT & HS & HI) & _ & _ & rows1 & Hrows1 & Hrow1 & _); [|done..].
    rewrite initOnceDo_TableName in HT. rewrite initOnceDo_initOnce in HI.
    fold sc in HS, Hrow1.
    erewrite GetLink_row;
      [|done|done|rewrite HT; exact Hrows1|rewrite HS; exact Hrow1
       |apply linkRow_nonempty].
    rewrite HS, linkRow_target. rewrite <-HS at 1 2.
    rewrite linkKey_target by by rewrite HS. rewrite HS.
    by rewrite genSplit_Join by auto using linkKey_budget.
Qed.

Lemma Unbordered_DefaultSpecialCharacter : Unbordered DefaultSpecialCharacter.
Proof. intros k Hk. assert (k = 1) as -> by (simpl in Hk; lia). done. Qed.

Lemma PutLink_then_GetLink_witness :
  let key := ["AccountsByEmail"; "alice@example.com"] in
  let target := ["Accounts"; "12345"] in
  let t := newTree "" [Throttle [false; true; true]] in
  (PutLink 1 key target (newTree "" [])).1.1 = Returns None ∧
  GetLink key (after (PutLink 2 key target t))
  = (Returns (target, None), after (PutLink 2 key target t), []).
Proof.
  intros key target t.
  assert (∀ fs,
    let t := newTree "" fs in
    (faults (DB t) = [] → (PutLink 1 key target t).1.1 = Returns None) ∧
    (∀ budget t1 calls,
       PutLink budget key target t = (Returns None, t1, calls) →
       faults (DB t1) = [] →
       GetLink key t1 = (Returns (target, None), t1, []))) as H.
  { intros fs. apply (PutLink_then_GetLink (newTree "" fs) key target).
    - apply Unbordered_DefaultSpecialCharacter.
    - by vm_compute.
    - by vm_compute.
    - done.
    - done.
    - repeat constructor.
    - repeat constructor.
    - by eexists. }
  split; [by apply (H [])|].
  assert ((PutLink 2 key target t).1.1 = Returns None) as Hlink by by vm_compute.
  apply (proj2 (H _) 2 _ _ (run_after _ None Hlink)). by vm_compute.
Defined.

(** C5 as stated fails for a special character with a border: with
    ["aa"], the target [["ba"; "b"]] is flattened to ["aabaaab"], whose
    first separator behind the leading one is found one byte early. *)
Lemma GetLink_bordered_special_character :
  let t := {| TableName := "tree";
              DB := {| tables := {[ "tree" := ∅ ]}; faults := [] |};
              SpecialCharacter := "aa"; initOnce := false |} in
  let key := ["x"] in
  let target := ["ba"; "b"] in
  validKey "aa" key ∧ validKey "aa" target ∧
  (PutLink 1 key target t).1.1 = Returns None ∧
  (GetLink key (after (PutLink 1 key target t))).1.1 = Returns (["b"; "ab"], None) ∧
  ["b"; "ab"] ≠ target.
Proof.
  intros t key target. split; [repeat constructor|]. split; [repeat constructor|].
  split; [by vm_compute|]. split; [by vm_compute|]. done.
Qed.

(** [GetLink_errors] on a service with the rows of [alice] and of a link
    to her. *)
Lemma GetLink_errors_witness :
  let t := after (PutLink 1 ["AccountsByEmail"; "alice@example.com"]
                    ["Accounts"; "12345"]
                    (after (Put 1 ["Accounts"; "12345"] (Some alice)
                              (newTree "" [])))) in
  (GetLink ["AccountsByEmail"; "missing"] t).1.1 = Returns ([], Some ErrNotFound) ∧
  (GetLink ["Accounts"; "12345"] t).1.1 = Returns ([], Some ErrNotLink).
Proof.
  intros t.
  assert (∃ db, GetItem (objectKey (initOnceDo t) ["AccountsByEmail"; "missing"])
                  (DB (initOnceDo t)) = (Done {| get_Item := ∅ |}, db))
    as [db1 E1] by (eexists; by vm_compute).
  assert (∃ row db,
            GetItem (objectKey (initOnceDo t) ["Accounts"; "12345"])
              (DB (initOnceDo t)) = (Done {| get_Item := row |}, db) ∧
            size row ≠ 0 ∧ row !! SpecialCharacter (initOnceDo t) = None)
    as (row & db2 & E2 & Hsize & Hlink).
  { eexists _, _. split; [by vm_compute|]. split; by vm_compute. }
  clearbody t.
  pose proof (GetLink_errors ["AccountsByEmail"; "missing"] t) as H1.
  pose proof (GetLink_errors ["Accounts"; "12345"] t) as H2.
  cbn zeta in H1, H2. rewrite E1 in H1. rewrite E2 in H2.
  split; [by apply H1|by apply H2].
Defined.

(** ** The root level *)

Section Root.
Implicit Types (t : Tree FakeDynamoDB) (rows : Table).

Lemma partition_empty pk rows :
  (∀ child, rows !! (pk, child) = None) → partition pk rows = [].
Proof.
  intros Hnone. unfold partition.
  assert (filter (λ kv : string * string * Item, kv.1.1 = pk) rows = ∅) as ->.
  { apply map_empty. intros [k child]. apply map_lookup_filter_None.
    destruct (decide (k = pk)) as [->|Hne]; [left; apply Hnone|].
    right. intros x _. done. }
  by rewrite map_to_list_empty.
Qed.

(** Listing a partition without rows on a service without faults. *)
Lemma List_empty {A} t keyPrefix itemFunc (acc : A) rows :
  let sc := SpecialCharacter t in
  initOnce t = true → faults (DB t) = [] →
  tables (DB t) !! TableName t = Some rows →
  (∀ child, rows !! (sc +:+ strings.Join keyPrefix sc +:+ sc, child) = None) →
  List keyPrefix itemFunc acc t = (Returns acc, t, []).
Proof.
  intros sc Hinit Hf Hrows Hnone. unfold List. rewrite doInit_self_run.
  rewrite (initOnceDo_done _ Hinit).
  unfold mbind, M_bind, bind, callQueryPages.
  cbn [QueryPages api]. unfold queryPages.
  rewrite (next_healthy _ Hf).
  cbn [query_TableName ExpressionAttributeNames ExpressionAttributeValues
       KeyConditionExpression].
  rewrite Hrows, !lookup_singleton_eq. cbn [mbind option_bind av_S StringValue].
  rewrite decide_True by done. fold sc.
  rewrite (partition_empty _ _ Hnone). unfold sc. by rewrite Tree_eta.
Qed.

(** The rows [Put] writes for a key of one part are outside the
    partition that [List] reads for the empty prefix. *)
Lemma root_rows_outside_root_partition sc part attributes child :
  validKey sc [part] →
  untouched (sc +:+ sc, child)
    (edgeRows sc "" [part]
       ++ [PutRequest (objectRow sc (prefixKey sc [part]) attributes)]).
Proof.
  intros Hvalid. pose proof (validKey_nonempty _ _ Hvalid) as Hsc.
  apply Forall_cons in Hvalid as [Hpart _].
  repeat constructor.
  - rewrite requestKey_edgeRow, string_app_nil_l. intros [= Heq _].
    apply (f_equal String.length) in Heq. rewrite string_length_app in Heq.
    pose proof (string_length_nonempty sc). destruct sc; [by apply Hsc|].
    simpl in *. lia.
  - simpl. rewrite primaryKey_objectRow. intros [= Heq _].
    cbn [prefixKey] in Heq. rewrite string_app_nil_r in Heq.
    apply (inj (String.app sc)) in Heq as ->.
    by rewrite Contains_refl in Hpart.
Qed.

End Root.

(** C9.  The root cannot be listed: [Put] of a key of one part writes its
    row of the root level under the special character alone and its
    object row under the special character and the part, and [List] with
    the empty prefix reads the partition of two special characters.  On a
    table with no row in that partition before, [List] with the empty
    prefix after the [Put] does not call the callback: it returns the
    state of the callback as it was. *)
Theorem List_root_after_Put {V : Type} `{!Storable V} {A : Type}
    (t t1 : Tree FakeDynamoDB) (budget : nat) (part : string) (item : option V)
    (res : outcome (option error)) (calls : list WriteCall)
    (itemFunc : string → option error → A → bool * A) (acc : A) (rows : Table) :
  let sc := SpecialCharacter (initOnceDo t) in
  tables (DB t) !! TableName t = Some rows →
  (∀ child, rows !! (sc +:+ sc, child) = None) →
  Put budget [part] item t = (res, t1, calls) →
  faults (DB t1) = [] →
  List [] itemFunc acc t1 = (Returns acc, t1, []).
Proof.
  intros sc Hrows Hnone Hput Hf1.
  apply Put_wrote in Hput as [(HT & HS & HI) Hput]. fold sc in HS.
  rewrite initOnceDo_TableName in HT. rewrite initOnceDo_initOnce in HI.
  assert (∃ rows1, tables (DB t1) !! TableName t1 = Some rows1 ∧
                   ∀ child, rows1 !! (sc +:+ sc, child) = None)
    as (rows1 & Hrows1 & Hnone1).
  { rewrite HT. destruct Hput as [[_ ->]|Hput]; [by eauto|].
    destruct Hput as (v & attributes & _ & Hvalid & _ & _ & [_ Hw]).
    fold sc in Hvalid, Hw. rewrite Hrows in Hw.
    destruct Hw as (rows1 & Hrows1 & Hw). exists rows1. split; [done|].
    intros child. rewrite <-(Hnone child). apply (Hw (sc +:+ sc, child)).
    by apply root_rows_outside_root_partition. }
  eapply List_empty; [done|done|exact Hrows1|].
  rewrite HS. exact Hnone1.
Qed.

Lemma List_root_after_Put_witness :
  let t := newTree "" [Throttle [true]] in
  let visit := λ (name : string) (err : option error) (seen : list string),
                 (true, seen ++ [name]) in
  (Put 2 ["Accounts"] (Some alice) t).1.1 = Returns None ∧
  List [] visit [] (after (Put 2 ["Accounts"] (Some alice) t))
  = (Returns [], after (Put 2 ["Accounts"] (Some alice) t), []).
Proof.
  intros t visit. split; [by vm_compute|].
  eapply (List_root_after_Put t _ 2 "Accounts" (Some alice) _ _ visit [] ∅).
  - reflexivity.
  - intros child. apply lookup_empty.
  - apply run_split.
  - by vm_compute.
Defined.

(** ** Deleting *)

(** The two rows [Delete] asks the service to delete. *)
Lemma Delete_rows {Svc : Type} `{!API Svc} (budget : nat) (key : list string)
    (parent : list string) (last : string) (t : Tree Svc) :
  let sc := SpecialCharacter (initOnceDo t) in
  let pathKey := sc +:+ strings.Join parent sc +:+ sc in
  key = parent ++ [last] →
  ∃ output calls,
    (Delete (S budget) key t).2 =
      ({| RequestItems :=
            {[ TableName t :=
                 [DeleteRequest {[ "Key" := StringValue pathKey;
                                   "Child" := StringValue last ]};
                  DeleteRequest {[ "Key" := StringValue (pathKey +:+ last);
                                   "Child" := StringValue sc ]}] ]} |},
       output) :: calls.
Proof.
  intros sc pathKey ->. rewrite Delete_eq. cbn zeta.
  rewrite length_app, Nat.add_1_r, take_app_length, initOnceDo_TableName.
  rewrite lookup_app_r, Nat.sub_diag by done. cbn [lookup list_lookup].
  cbn [retryLoop]. unfold mbind, M_bind, bind, callBatchWriteItem.
  destruct (BatchWriteItem _ _) as [[output|err] db]; [|by eexists _, _].
  destruct (decide _); [by eexists _, _|].
  destruct (retryLoop _ _ _) as [[??]?]. by eexists _, _.
Qed.

(** For a key of two parts or more, the second of these rows is the
    object row of the key. *)
Lemma Delete_rows_object_row (sc : string) (parent : list string) (last : string) :
  parent ≠ [] →
  (sc +:+ strings.Join parent sc +:+ sc) +:+ last
  = sc +:+ strings.Join (parent ++ [last]) sc.
Proof.
  intros Hparent. rewrite !string_app_assoc. f_equal.
  induction parent as [|x parent IH]; [done|].
  destruct parent as [|y parent].
  - done.
  - cbn [app] in *. rewrite !Join_cons, !string_app_assoc by done.
    by rewrite IH.
Qed.

(** C1 on a key of one part.  After [Put(["a"], alice)], [Delete(["a"])]
    returns nil, but the two rows it deletes are keyed by two special
    characters, and by two special characters and the part: not the rows
    that [Put] wrote.  The object stays where it was: [Get(["a"])] still
    returns it. *)
Theorem Delete_root_level_key_misses_rows :
  let sc := DefaultSpecialCharacter in
  let t1 := after (Put 1 ["a"] (Some alice) (newTree "" [])) in
  let deleted := Delete 1 ["a"] t1 in
  deleted.1.1 = Returns None ∧
  deleted.2 =
    [({| RequestItems :=
           {[ "tree" :=
                [DeleteRequest {[ "Key" := StringValue (sc +:+ sc);
                                  "Child" := StringValue "a" ]};
                 DeleteRequest {[ "Key" := StringValue (sc +:+ sc +:+ "a");
                                  "Child" := StringValue sc ]}] ]} |},
      Done {| UnprocessedItems := ∅ |})] ∧
  (Get 1 ["a"] (Some blank) t1).1.1 = Returns (None, Some alice) ∧
  (Get 1 ["a"] (Some blank) (after deleted)).1.1 = Returns (None, Some alice).
Proof. intros sc t1 deleted. repeat split; by vm_compute. Qed.

(** * Further properties of the methods *)

(** ** What [Put] and [PutLink] reject *)

Lemma Put_invalid_key {Svc : Type} `{!API Svc} {V : Type} `{!Storable V}
    (budget : nat) (key : list string) (item : option V) (t : Tree Svc) :
  ¬ validKey (SpecialCharacter (initOnceDo t)) key →
  Put budget key item t
  = (Returns (Some ErrReservedCharacterInKey), initOnceDo t, []).
Proof.
  intros Hinvalid. rewrite Put_eq. cbn zeta.
  pose proof (pathLoop_inv (SpecialCharacter (initOnceDo t)) key "" []) as Hpath.
  destruct (pathLoop _ key "" []) as [err|?]; [|done].
  by destruct Hpath as [-> _].
Qed.

Lemma PutLink_invalid_key {Svc : Type} `{!API Svc}
    (budget : nat) (key target : list string) (t : Tree Svc) :
  ¬ validKey (SpecialCharacter (initOnceDo t)) key →
  PutLink budget key target t
  = (Returns (Some ErrReservedCharacterInKey), initOnceDo t, []).
Proof.
  intros Hinvalid. rewrite PutLink_eq. cbn zeta.
  pose proof (pathLoop_inv (SpecialCharacter (initOnceDo t)) key "" []) as Hpath.
  destruct (pathLoop _ key "" []) as [err|?]; [|done].
  by destruct Hpath as [-> _].
Qed.

(** X1.  The checks of [Put] in their order.  A part of the key with the
    special character gives [ErrReservedCharacterInKey], whatever the item
    is; on a valid key an error of [MarshalDynamoDB] is returned as it is;
    on a valid key and a serialized item, an attribute name of the row
    (its own, or [Key] or [Child]) that starts with the special character
    gives [ErrReservedCharacterInAttribute].  In all three cases nothing
    was sent and the tree is as [init] left it. *)
Theorem Put_checks_in_order {Svc : Type} `{!API Svc} {V : Type} `{!Storable V}
    (budget : nat) (key : list string) (item : option V) (t : Tree Svc) :
  let t0 := initOnceDo t in
  let sc := SpecialCharacter t0 in
  (¬ validKey sc key →
   Put budget key item t = (Returns (Some ErrReservedCharacterInKey), t0, [])) ∧
  (∀ v attributes err,
     validKey sc key → item = Some v →
     MarshalDynamoDB v = (attributes, Some err) →
     Put budget key item t = (Returns (Some err), t0, [])) ∧
  (∀ v attributes,
     validKey sc key → item = Some v →
     MarshalDynamoDB v = (Some attributes, None) →
     ¬ unreserved sc (objectRow sc (prefixKey sc key) attributes) →
     Put budget key item t
     = (Returns (Some ErrReservedCharacterInAttribute), t0, [])).
Proof.
  intros t0 sc. rewrite Put_eq. cbn zeta. fold t0. fold sc.
  pose proof (pathLoop_inv sc key "" []) as Hpath.
  split; [|split].
  - intros Hinvalid. destruct (pathLoop sc key "" []) as [err|?]; [|done].
    by destruct Hpath as [-> _].
  - intros v attributes err Hvalid -> Hm.
    rewrite (pathLoop_valid _ _ _ _ Hvalid), Hm. by destruct attributes.
  - intros v attributes Hvalid -> Hm Hres.
    rewrite (pathLoop_valid _ _ _ _ Hvalid), Hm, string_app_nil_l.
    by rewrite decide_False.
Qed.

Lemma Put_checks_in_order_witness :
  let bad := {| ID := "12345"; Name := "alice"; MarshalFailPlease := true |} in
  Put 1 ["Accounts"; "12X345"] (Some bad) (newTree "X" [])
  = (Returns (Some ErrReservedCharacterInKey), initOnceDo (newTree "X" []), []) ∧
  Put 1 ["Accounts"; "12345"] (Some bad) (newTree "X" [])
  = (Returns (Some (ErrOther "could not grob the frob")),
     initOnceDo (newTree "X" []), []) ∧
  Put 1 ["Accounts"; "12345"] (Some alice) (newTree "N" [])
  = (Returns (Some ErrReservedCharacterInAttribute), initOnceDo (newTree "N" []), []).
Proof.
  intros bad. split; [|split].
  - apply (Put_checks_in_order 1 ["Accounts"; "12X345"] (Some bad) (newTree "X" [])).
    intros Hvalid. apply Forall_cons in Hvalid as [_ Hvalid].
    apply Forall_cons in Hvalid as [Hpart _]. by vm_compute in Hpart.
  - eapply (Put_checks_in_order 1 ["Accounts"; "12345"] (Some bad) (newTree "X" []));
      [repeat constructor|reflexivity|reflexivity].
  - eapply (Put_checks_in_order 1 ["Accounts"; "12345"] (Some alice) (newTree "N" []));
      [repeat constructor|reflexivity|reflexivity|].
    intros Hrow. specialize (Hrow "Name" (StringValue "alice")).
    by vm_compute in Hrow; specialize (Hrow eq_refl).
Defined.

(** X2.  [PutLink] checks the parts of the key and then those of the
    target, and nothing else: it returns [ErrReservedCharacterInKey],
    having sent nothing, exactly when one of them has the special
    character; on valid paths all there is to its result is the result of
    the batch writer, and [ErrReservedCharacterInAttribute] is never
    returned. *)
Theorem PutLink_checks {Svc : Type} `{!API Svc}
    (budget : nat) (key target : list string) (t : Tree Svc) :
  let t0 := initOnceDo t in
  let sc := SpecialCharacter t0 in
  (¬ (validKey sc key ∧ validKey sc target) →
   PutLink budget key target t
   = (Returns (Some ErrReservedCharacterInKey), t0, [])) ∧
  (validKey sc key → validKey sc target →
   PutLink budget key target t
   = let rows := edgeRows sc "" key
                   ++ [PutRequest (linkRow sc (prefixKey sc key) target)] in
     batchLoop (length rows) budget 0 rows t0) ∧
  (PutLink budget key target t).1.1 ≠ Returns (Some ErrReservedCharacterInAttribute).
Proof.
  intros t0 sc.
  assert (validKey sc key → validKey sc target →
          PutLink budget key target t
          = batchLoop
              (length (edgeRows sc "" key
                         ++ [PutRequest (linkRow sc (prefixKey sc key) target)]))
              budget 0
              (edgeRows sc "" key
                 ++ [PutRequest (linkRow sc (prefixKey sc key) target)]) t0)
    as Hvalid.
  { intros Hkey Htarget. rewrite PutLink_eq. cbn zeta. fold t0. fold sc.
    rewrite (pathLoop_valid _ _ _ _ Hkey), string_app_nil_l.
    pose proof (targetLoop_inv sc target) as Hloop.
    destruct (targetLoop sc target) as [err|] eqn:Ht; [|done].
    exfalso. clear Hloop.
    induction Htarget as [|x target Hx _ IH]; [done|].
    simpl in Ht. rewrite Hx in Ht. auto. }
  pose proof (pathLoop_inv sc key "" []) as Hpath.
  pose proof (targetLoop_inv sc target) as Hloop.
  split; [|split; [done|]].
  - intros Hinvalid. rewrite PutLink_eq. cbn zeta. fold t0. fold sc.
    destruct (pathLoop sc key "" []) as [err|[pathKey rows]].
    { by destruct Hpath as [-> _]. }
    destruct (targetLoop sc target) as [err|]; [by subst|].
    by destruct Hinvalid.
  - rewrite PutLink_eq. cbn zeta. fold t0. fold sc.
    destruct (pathLoop sc key "" []) as [err|[pathKey rows]].
    { by destruct Hpath as [-> _]. }
    destruct (targetLoop sc target) as [err|]; [by subst|].
    clear Hvalid.
    destruct (batchLoop _ _ _ _ _) as [[res t'] calls] eqn:Hb.
    apply batchLoop_res in Hb as [[->|[->|[err ->]]] _]; simpl; congruence.
Qed.

Lemma PutLink_checks_witness :
  PutLink 1 ["AccountsByEmail"; "alice@example.com"] ["AccountsX"; "12345"]
    (newTree "X" [])
  = (Returns (Some ErrReservedCharacterInKey), initOnceDo (newTree "X" []), []) ∧
  (PutLink 1 ["AccountsByEmail"; "alice@example.com"] ["Accounts"; "12345"]
     (newTree "X" [])).1.1 = Returns None.
Proof.
  split.
  - apply (PutLink_checks 1 ["AccountsByEmail"; "alice@example.com"]
             ["AccountsX"; "12345"] (newTree "X" [])).
    intros [_ Hvalid]. apply Forall_cons in Hvalid as [Hpart _].
    by vm_compute in Hpart.
  - pose proof (PutLink_checks 1 ["AccountsByEmail"; "alice@example.com"]
                  ["Accounts"; "12345"] (newTree "X" [])) as (_ & Hvalid & _).
    rewrite Hvalid.
    + by vm_compute.
    + repeat constructor.
    + repeat constructor.
Defined.

(** ** Writes on a service without faults *)

Section Clean.
Implicit Types (t : Tree FakeDynamoDB) (l : list WriteRequest).

Lemma retryLoop_clean tn l t :
  faults (DB t) = [] → is_Some (tables (DB t) !! tn) →
  0 < length l ≤ 25 → Forall (λ r, is_Some (requestKey r)) l →
  ∃ t',
    retryLoop 1 {| RequestItems := {[ tn := l ]} |} t
    = (Returns None, t', cleanCalls tn [l]) ∧
    faults (DB t') = [] ∧ is_Some (tables (DB t') !! tn) ∧ same_config t t'.
Proof.
  intros Hf [rows Hrows] Hlen Hkeys.
  cbn [retryLoop]. unfold mbind, M_bind, bind, callBatchWriteItem.
  cbn [BatchWriteItem api]. unfold batchWriteItem.
  rewrite (next_healthy _ Hf). cbn [RequestItems].
  rewrite decide_True.
  2:{ split; [apply map_non_empty_singleton|].
      apply map_Forall_singleton. split; [by eexists|]. split; [lia|].
      split; [lia|done]. }
  cbn [UnprocessedItems]. rewrite omap_singleton, unprocessed_nil.
  rewrite decide_True by apply map_size_empty.
  eexists. split; [done|]. cbn [DB faults tables].
  split; [done|]. split; [|done].
  rewrite lookup_merge, Hrows, lookup_singleton_eq. by eexists.
Qed.

Lemma batchLoop_clean steps i writeRequests t :
  faults (DB t) = [] → is_Some (tables (DB t) !! TableName t) →
  Forall (λ r, is_Some (requestKey r)) writeRequests →
  length writeRequests - i ≤ steps →
  ∃ t',
    batchLoop steps 1 i writeRequests t
    = (Returns None, t',
       cleanCalls (TableName t) (chunks steps (drop i writeRequests))) ∧
    faults (DB t') = [] ∧ same_config t t'.
Proof.
  intros Hf Ht Hkeys. revert i t Hf Ht.
  induction steps as [|steps IH]; intros i t Hf Ht Hsteps; cbn [batchLoop];
    (destruct (decide (i < length writeRequests)) as [Hi|Hi];
     [|rewrite drop_ge by lia; by eexists]); [lia|].
  destruct (drop i writeRequests) as [|x rest] eqn:Hdrop.
  { apply (f_equal length) in Hdrop. rewrite length_drop in Hdrop.
    simpl in Hdrop. lia. }
  cbn [chunks]. rewrite <-Hdrop.
  unfold mbind, M_bind, bind, self. rewrite slice_chunk.
  destruct (retryLoop_clean (TableName t) (take 25 (drop i writeRequests)) t)
    as (t1 & -> & Hf1 & Ht1 & Hcfg); [done|done| | |].
  { rewrite length_take, length_drop. lia. }
  { by apply Forall_take, Forall_drop. }
  pose proof Hcfg as (HT & _). rewrite <-HT in Ht1.
  destruct (IH (i + 25) t1 Hf1 Ht1) as (t2 & -> & Hf2 & Hcfg2); [lia|].
  eexists. rewrite drop_drop, HT. split; [done|]. split; [done|].
  by eapply same_config_trans.
Qed.

Lemma length_chunks steps l :
  length l ≤ steps → length (chunks steps l) = (length l + 24) / 25.
Proof.
  revert l. induction steps as [|steps IH]; intros l Hlen.
  { destruct l; [done|simpl in Hlen; lia]. }
  destruct l as [|x l]; [done|]. cbn [chunks length].
  rewrite IH by (rewrite length_drop; cbn [length] in *; lia).
  rewrite length_drop. cbn [length].
  destruct (decide (S (length l) ≤ 25)) as [Hle|Hgt].
  - replace (S (length l) - 25) with 0 by lia.
    rewrite (Nat.div_small 24) by lia.
    apply (Nat.div_unique _ 25 1 (length l)); lia.
  - replace (S (length l) + 24) with ((S (length l) - 25 + 24) + 1 * 25) by lia.
    rewrite Nat.div_add by lia. lia.
Qed.

End Clean.

(** X3.  On a service without faults whose table exists, [Put] of a valid
    key of [N] parts with a serializable item returns nil with a budget of
    one call per chunk; what it sent is the [N + 1] rows (one per prefix,
    then the object row) in chunks of 25, every chunk in one call that
    left nothing unprocessed: [(N + 1 + 24) / 25] calls. *)
Theorem Put_clean_calls {V : Type} `{!Storable V} (t : Tree FakeDynamoDB)
    (key : list string) (v : V) (attributes : Item) :
  let sc := SpecialCharacter (initOnceDo t) in
  let rows := edgeRows sc "" key
                ++ [PutRequest (objectRow sc (prefixKey sc key) attributes)] in
  validKey sc key → MarshalDynamoDB v = (Some attributes, None) →
  unreserved sc (objectRow sc (prefixKey sc key) attributes) →
  is_Some (tables (DB t) !! TableName t) → faults (DB t) = [] →
  ∃ t1,
    Put 1 key (Some v) t
    = (Returns None, t1, cleanCalls (TableName t) (chunks (length rows) rows)) ∧
    concat (chunks (length rows) rows) = rows ∧
    length rows = length key + 1 ∧
    length (cleanCalls (TableName t) (chunks (length rows) rows))
    = (length key + 1 + 24) / 25.
Proof.
  intros sc rows Hvalid Hm Hun Ht Hf. rewrite Put_eq. cbn zeta. fold sc.
  rewrite (pathLoop_valid _ _ _ _ Hvalid), Hm.
  rewrite string_app_nil_l, app_nil_l, decide_True by done. fold rows.
  assert (length rows = length key + 1) as Hlen.
  { unfold rows. by rewrite length_app, length_edgeRows. }
  edestruct (batchLoop_clean (length rows) 0 rows (initOnceDo t))
    as (t1 & -> & _ & _).
  - by rewrite initOnceDo_DB.
  - by rewrite initOnceDo_DB, initOnceDo_TableName.
  - apply Forall_app. split; [apply edgeRows_keys|].
    constructor; [|done]. simpl. rewrite primaryKey_objectRow. by eexists.
  - lia.
  - exists t1. rewrite drop_0, initOnceDo_TableName. split; [done|].
    split; [by apply chunks_concat|]. split; [done|].
    unfold cleanCalls. by rewrite length_fmap, length_chunks, Hlen.
Qed.

Lemma Put_clean_calls_witness :
  let key := replicate 50 "X" in
  ∃ t1 calls,
    Put 1 key (Some alice) (newTree "" []) = (Returns None, t1, calls) ∧
    length calls = 3.
Proof.
  intros key.
  destruct (Put_clean_calls (newTree "" []) key alice
              {[ "ID" := StringValue "12345"; "Name" := StringValue "alice";
                 "MarshalFailPlease" :=
                   {| av_S := None; av_N := None; av_BOOL := Some false |} ]})
    as (t1 & Hput & _ & _ & Hcalls).
  - apply Forall_forall. intros part Hpart%elem_of_replicate.
    destruct Hpart as [-> _]. by vm_compute.
  - reflexivity.
  - by_compute.
  - by eexists.
  - reflexivity.
  - eexists _, _. split; [exact Hput|]. rewrite Hcalls. by vm_compute.
Defined.

(** ** What a write leaves alone *)

(** X4.  [Delete] names two rows and no other: whatever the service does
    (throttle, fail, never finish) and however the call ends, every other
    row of the table, and every other table, is after the call as it was
    before.  In particular the rows of the ancestors and of the children
    of the key stay. *)
Theorem Delete_leaves_other_rows (budget : nat) (parent : list string)
    (last : string) (t t' : Tree FakeDynamoDB) (res : outcome (option error))
    (calls : list WriteCall) (rows : Table) :
  let sc := SpecialCharacter (initOnceDo t) in
  let pathKey := sc +:+ strings.Join parent sc +:+ sc in
  Delete budget (parent ++ [last]) t = (res, t', calls) →
  tables (DB t) !! TableName t = Some rows →
  (∀ tn, tn ≠ TableName t → tables (DB t') !! tn = tables (DB t) !! tn) ∧
  ∃ rows',
    tables (DB t') !! TableName t = Some rows' ∧
    ∀ k, k ≠ (pathKey, last) → k ≠ (pathKey +:+ last, sc) →
         rows' !! k = rows !! k.
Proof.
  intros sc pathKey. rewrite Delete_eq. cbn zeta. fold sc.
  rewrite length_app, Nat.add_1_r, take_app_length.
  rewrite lookup_app_r, Nat.sub_diag by done. cbn [lookup list_lookup].
  fold pathKey. rewrite initOnceDo_TableName.
  intros Hrun Hrows. apply retryLoop_wrote in Hrun as [Hother Hw].
  rewrite initOnceDo_DB in Hother, Hw. split; [done|].
  rewrite Hrows in Hw. destruct Hw as (rows' & Hrows' & Hw).
  exists rows'. split; [done|]. intros k Hk1 Hk2. apply (Hw k).
  repeat constructor; simpl; rewrite primaryKey_pair; congruence.
Qed.

Lemma Delete_leaves_other_rows_witness :
  let sc := DefaultSpecialCharacter in
  let rows : Table := {[ (sc, "Accounts") := ∅ ]} in
  let t := {| TableName := "tree";
              DB := {| tables := {[ "tree" := rows ]};
                       faults := [Throttle [true]; Fail "throttled"] |};
              SpecialCharacter := ""; initOnce := false |} in
  ∃ rows',
    tables (DB (after (Delete 3 ["Accounts"; "12345"] t))) !! "tree" = Some rows' ∧
    rows' !! (sc, "Accounts") = Some ∅.
Proof.
  intros sc rows t.
  destruct (Delete_leaves_other_rows 3 ["Accounts"] "12345" t _ _ _ rows
              (run_split _)) as (_ & rows' & Hrows' & Hsame).
  { apply lookup_singleton_eq. }
  exists rows'. split; [exact Hrows'|].
  rewrite Hsame; [apply lookup_singleton_eq|..];
    intros Heq; by vm_compute in Heq.
Defined.

(** ** Reading *)

Section Reads.
Implicit Types (t : Tree FakeDynamoDB) (rows : Table).

(** Reading a row that is not there. *)
Lemma Get_absent {V} `{!Storable V} depth t key (ob : option V) rows :
  let sc := SpecialCharacter t in
  initOnce t = true → faults (DB t) = [] →
  tables (DB t) !! TableName t = Some rows →
  rows !! (sc +:+ strings.Join key sc, sc) = None →
  Get (S depth) key ob t = (Returns (Some ErrNotFound, ob), t, []).
Proof.
  intros sc Hinit Hf Hrows Hrow. rewrite Get_eq. cbn zeta.
  rewrite (initOnceDo_done _ Hinit), (GetItem_healthy _ _ _ Hf Hrows).
  rewrite Tree_eta. fold sc. rewrite Hrow. cbn [default get_Item].
  by rewrite decide_True by apply map_size_empty.
Qed.

End Reads.

(** X5.  [Get] answers only for object rows.  After a [Put(p, v)],
    however it ended, a path [q] whose object row was not there before and
    is not that of [p] is still not found: [Get(q)] returns [ErrNotFound]
    and leaves the object alone, also for a nil object.  So the prefixes
    of a stored path are not objects. *)
Theorem Get_of_unwritten_path {V : Type} `{!Storable V} (budget depth : nat)
    (p q : list string) (item : option V) (ob : option V)
    (t t1 : Tree FakeDynamoDB) (res : outcome (option error))
    (calls : list WriteCall) (rows : Table) :
  let sc := SpecialCharacter (initOnceDo t) in
  tables (DB t) !! TableName t = Some rows →
  rows !! (sc +:+ strings.Join q sc, sc) = None →
  prefixKey sc p ≠ sc +:+ strings.Join q sc →
  Put budget p item t = (res, t1, calls) →
  faults (DB t1) = [] →
  Get (S depth) q ob t1 = (Returns (Some ErrNotFound, ob), t1, []).
Proof.
  intros sc Hrows Hnone Hne Hput Hf1.
  apply Put_wrote in Hput as [(HT & HS & HI) Hput]. fold sc in HS.
  rewrite initOnceDo_TableName in HT. rewrite initOnceDo_initOnce in HI.
  assert (∃ rows1, tables (DB t1) !! TableName t1 = Some rows1 ∧
                   rows1 !! (sc +:+ strings.Join q sc, sc) = None)
    as (rows1 & Hrows1 & Hnone1).
  { rewrite HT. destruct Hput as [[_ ->]|Hput]; [by eauto|].
    destruct Hput as (v & attributes & _ & Hvalid & _ & _ & [_ Hw]).
    fold sc in Hvalid, Hw. rewrite Hrows in Hw.
    destruct Hw as (rows1 & Hrows1 & Hw). exists rows1. split; [done|].
    rewrite <-Hnone. apply (Hw (sc +:+ strings.Join q sc, sc)).
    apply untouched_app. split; [by apply untouched_edgeRows|].
    constructor; [|constructor]. simpl. rewrite primaryKey_objectRow.
    congruence. }
  eapply Get_absent; [done|done|exact Hrows1|]. by rewrite HS.
Qed.

Lemma Get_of_unwritten_path_witness :
  let t1 := after (Put 1 ["Accounts"; "12345"] (Some alice) (newTree "" [])) in
  Get 1 ["Accounts"] (@None AccountT) t1 = (Returns (Some ErrNotFound, None), t1, []).
Proof.
  intros t1.
  eapply (Get_of_unwritten_path 1 0 ["Accounts"; "12345"] ["Accounts"]
            (Some alice) None (newTree "" []) t1 _ _ ∅).
  - reflexivity.
  - apply lookup_empty.
  - intros Heq. by vm_compute in Heq.
  - apply run_split.
  - by vm_compute.
Defined.

(** X6.  What [Get] yields after a [Put] that returned nil is what
    [UnmarshalDynamoDB] makes of the stored row (the serialized
    attributes, with [Key] and [Child] set): its object, and its error if
    it fails.  A [Get] with a nil object on the stored path panics. *)
Theorem Get_after_Put_unmarshals {V : Type} `{!Storable V} (budget : nat)
    (key : list string) (v ob : V) (attributes : Item)
    (t t1 : Tree FakeDynamoDB) (calls : list WriteCall) :
  let sc := SpecialCharacter (initOnceDo t) in
  let stored := objectRow sc (sc +:+ strings.Join key sc) attributes in
  key ≠ [] → MarshalDynamoDB v = (Some attributes, None) →
  is_Some (tables (DB t) !! TableName t) →
  Put budget key (Some v) t = (Returns None, t1, calls) →
  faults (DB t1) = [] →
  Get 1 key (Some ob) t1
  = (Returns ((UnmarshalDynamoDB stored ob).1, Some (UnmarshalDynamoDB stored ob).2),
     t1, []) ∧
  Get 1 key (@None V) t1 = (Panics "nil pointer dereference", t1, []).
Proof.
  intros sc stored Hkey Hm Ht Hput Hf1.
  apply Put_stored with (attributes := attributes) in Hput
    as ((HT & HS & HI) & _ & Hun & rows1 & Hrows1 & Hrow); [|done..].
  rewrite initOnceDo_TableName in HT. rewrite initOnceDo_initOnce in HI.
  fold sc in HS, Hrow, Hun. fold stored in Hrow, Hun.
  split.
  - erewrite Get_row;
      [|done|done|rewrite HT; exact Hrows1|rewrite HS; exact Hrow
       |apply objectRow_nonempty].
    rewrite HS, (unreserved_no_link _ _ Hun).
    by destruct (UnmarshalDynamoDB stored ob) as [[err|] v'].
  - erewrite Get_row;
      [|done|done|rewrite HT; exact Hrows1|rewrite HS; exact Hrow
       |apply objectRow_nonempty].
    by rewrite HS, (unreserved_no_link _ _ Hun).
Qed.

Lemma Get_after_Put_unmarshals_witness :
  let t1 := after (Put 1 ["xyzpdq"] (Some {| Key := "http://example.com/" |})
                     (newTree "" [])) in
  Get 1 ["xyzpdq"] (Some {| Key := "" |}) t1
  = (Returns (None, Some {| Key := DefaultSpecialCharacter +:+ "xyzpdq" |}), t1, []).
Proof.
  intros t1.
  destruct (Get_after_Put_unmarshals 1 ["xyzpdq"]
              {| Key := "http://example.com/" |} {| Key := "" |}
              {[ "Key" := StringValue "http://example.com/" ]}
              (newTree "" []) t1 (Put 1 ["xyzpdq"]
                 (Some {| Key := "http://example.com/" |}) (newTree "" [])).2)
    as [Hget _].
  - done.
  - reflexivity.
  - by eexists.
  - apply run_after. by vm_compute.
  - by vm_compute.
  - rewrite Hget.
    apply (f_equal (λ r : outcome (option error * option ShortLink),
                      (r, t1, @nil WriteCall))).
    by vm_compute.
Defined.

(** ** The special character *)

(** X7.  [init] runs once.  On the first call of a method an empty
    special character becomes the default and a chosen one stays; a tree
    that has been used keeps its special character as it is, also when it
    was emptied since: then every part contains it, and [Put] and
    [PutLink] reject every non-empty key with
    [ErrReservedCharacterInKey]. *)
Theorem init_runs_once {Svc : Type} `{!API Svc} {V : Type} `{!Storable V}
    (t : Tree Svc) :
  initOnce (initOnceDo t) = true ∧
  initOnceDo (initOnceDo t) = initOnceDo t ∧
  (initOnce t = false →
   SpecialCharacter (initOnceDo t)
   = if decide (SpecialCharacter t = "") then DefaultSpecialCharacter
     else SpecialCharacter t) ∧
  (initOnce t = true → SpecialCharacter t = "" →
   ∀ budget key target (item : option V), key ≠ [] →
     Put budget key item t = (Returns (Some ErrReservedCharacterInKey), t, []) ∧
     PutLink budget key target t
     = (Returns (Some ErrReservedCharacterInKey), t, [])).
Proof.
  split; [apply initOnceDo_initOnce|]. split; [apply initOnceDo_idemp|].
  split.
  - intros Hfresh. unfold initOnceDo, init. rewrite Hfresh.
    by destruct (decide (SpecialCharacter t = "")).
  - intros Hused Hempty budget key target item Hkey.
    assert (¬ validKey (SpecialCharacter (initOnceDo t)) key) as Hinvalid.
    { rewrite (initOnceDo_done _ Hused), Hempty.
      intros Hvalid. by apply validKey_nonempty in Hvalid. }
    rewrite <-(initOnceDo_done _ Hused) at 2 4. split.
    + by apply Put_invalid_key.
    + by apply PutLink_invalid_key.
Qed.

Lemma init_runs_once_witness :
  let used := {| TableName := "tree";
                 DB := {| tables := {[ "tree" := ∅ ]}; faults := [] |};
                 SpecialCharacter := ""; initOnce := true |} in
  SpecialCharacter (initOnceDo (newTree "" [])) = DefaultSpecialCharacter ∧
  Put 1 ["Accounts"] (Some alice) used
  = (Returns (Some ErrReservedCharacterInKey), used, []).
Proof.
  intros used.
  destruct (init_runs_once (V := AccountT) (newTree "" [])) as (_ & _ & Hfresh & _).
  destruct (init_runs_once (V := AccountT) used) as (_ & _ & _ & Hused).
  split; [exact (Hfresh eq_refl)|].
  by apply (Hused eq_refl eq_refl 1 ["Accounts"] [] (Some alice)).
Defined.

(** ** Deleting *)

Section Deletes.
Implicit Types (db : FakeDynamoDB) (l : list WriteRequest) (k : string * string).
Implicit Types (rows : Table) (t : Tree FakeDynamoDB).

Lemma sole_mask k r mask l :
  sole k r l →
  (sole k r (processed mask l) ∧ untouched k (unprocessed mask l)) ∨
  (untouched k (processed mask l) ∧ sole k r (unprocessed mask l)).
Proof.
  intros Hs. revert mask.
  induction Hs as [l Hk Hun|r' l Hr Hs IH]; intros mask.
  - destruct mask as [|[] mask]; simpl;
      [destruct (untouched_mask k [] l Hun)
      |destruct (untouched_mask k mask l Hun)..];
      [left|right|left]; split; try constructor; done.
  - destruct mask as [|[] mask]; simpl;
      [destruct (IH []) as [[??]|[??]]|destruct (IH mask) as [[??]|[??]]..];
      [left|right|left|right|left|right]; split; try constructor; done.
Qed.

Lemma write_effect rows r k :
  requestKey r = Some k → write rows r !! k = effect r.
Proof.
  destruct r as [item|key]; simpl; intros ->.
  - apply lookup_insert_eq.
  - apply lookup_delete_eq.
Qed.

Lemma foldl_write_effect l rows k r :
  sole k r l → foldl write rows l !! k = effect r.
Proof.
  intros Hs. revert rows. induction Hs as [l Hk Hun|r' l Hr Hs IH]; intros rows.
  - simpl. rewrite foldl_write_untouched by done. by apply write_effect.
  - simpl. apply IH.
Qed.

Lemma batchWriteItem_singleton_rows tn l db output db' :
  batchWriteItem {| RequestItems := {[ tn := l ]} |} db = (Done output, db') →
  ∃ mask,
    UnprocessedItems output
    = match unprocessed mask l with [] => ∅ | u => {[ tn := u ]} end ∧
    tables db' !! tn
    = (λ rows, foldl write rows (processed mask l)) <$> tables db !! tn.
Proof.
  unfold batchWriteItem.
  pose proof (next_tables db) as Hnt.
  destruct (next db) as [[err|mask] db1]; simpl in Hnt; [done|].
  cbn [RequestItems]. destruct (decide _) as [Hacc|_]; [|done].
  intros [= <- <-]. exists mask. cbn [UnprocessedItems tables]. split.
  - rewrite omap_singleton. by destruct (unprocessed mask l).
  - rewrite lookup_merge, lookup_singleton_eq, Hnt.
    by destruct (tables db !! tn).
Qed.

Lemma retryLoop_applied budget tn l t t' calls :
  retryLoop budget {| RequestItems := {[ tn := l ]} |} t = (Returns None, t', calls) →
  applied tn l (DB t) (DB t').
Proof.
  revert l t t' calls. induction budget as [|budget IH]; intros l t t' calls;
    [done|].
  cbn [retryLoop]. unfold mbind, M_bind, bind, callBatchWriteItem.
  cbn [BatchWriteItem api].
  destruct (batchWriteItem _ (DB t)) as [[output|err] db1] eqn:Hcall; [|done].
  apply batchWriteItem_singleton_rows in Hcall as (mask & Hout & Hrows1).
  rewrite Hout. unfold applied.
  destruct (unprocessed mask l) as [|r0 u] eqn:Hu.
  - rewrite decide_True by apply map_size_empty.
    intros [= <- <-]. cbn [DB].
    destruct (tables (DB t) !! tn) as [rows|]; [|done].
    eexists. split; [exact Hrows1|]. intros k r Hs.
    destruct (sole_mask k r mask l Hs) as [[Hp _]|[_ Hp]].
    + by apply foldl_write_effect.
    + rewrite Hu in Hp. inversion Hp.
  - rewrite decide_False by (rewrite map_size_singleton; lia).
    destruct (retryLoop budget _ _) as [[res1 t1] calls1] eqn:Hrec.
    intros [= -> <- <-].
    pose proof (retryLoop_wrote _ _ _ _ _ _ _ Hrec) as [_ Hw].
    apply IH in Hrec. unfold applied in Hrec. cbn [DB] in Hrec, Hw.
    destruct (tables (DB t) !! tn) as [rows|]; [|done].
    simpl in Hrows1. rewrite Hrows1 in Hrec, Hw.
    destruct Hrec as (rows2 & Hrows2 & Hrec). exists rows2. split; [done|].
    destruct Hw as (rows2' & Hrows2' & Hw).
    rewrite Hrows2 in Hrows2'. injection Hrows2' as <-.
    intros k r Hs.
    destruct (sole_mask k r mask l Hs) as [[Hp Hun]|[_ Hp]].
    + rewrite Hu in Hun. rewrite (proj1 (Hw k) Hun).
      by apply foldl_write_effect.
    + rewrite Hu in Hp. by apply Hrec.
Qed.

(** What a [Delete] that returned nil has done. *)
Lemma Delete_applied budget parent last t t' calls rows :
  let sc := SpecialCharacter (initOnceDo t) in
  let pathKey := sc +:+ strings.Join parent sc +:+ sc in
  sc ≠ "" →
  Delete budget (parent ++ [last]) t = (Returns None, t', calls) →
  tables (DB t) !! TableName t = Some rows →
  same_config (initOnceDo t) t' ∧
  ∃ rows',
    tables (DB t') !! TableName t = Some rows' ∧
    rows' !! (pathKey, last) = None ∧ rows' !! (pathKey +:+ last, sc) = None.
Proof.
  intros sc pathKey Hsc. rewrite Delete_eq. cbn zeta. fold sc.
  rewrite length_app, Nat.add_1_r, take_app_length.
  rewrite lookup_app_r, Nat.sub_diag by done. cbn [lookup list_lookup].
  fold pathKey. rewrite initOnceDo_TableName.
  intros Hrun Hrows.
  edestruct (retryLoop_run budget) as (res & t'' & calls' & Heq & _ & Hcfg).
  rewrite Hrun in Heq. injection Heq as <- <- <-. split; [exact Hcfg|].
  apply retryLoop_applied in Hrun. unfold applied in Hrun.
  rewrite initOnceDo_DB, Hrows in Hrun. destruct Hrun as (rows' & Hrows' & Hrun).
  assert ((pathKey, last) ≠ (pathKey +:+ last, sc)) as Hne.
  { intros [= Hp Hl]. apply (f_equal String.length) in Hp.
    rewrite string_length_app in Hp. subst last.
    pose proof (string_length_nonempty _ Hsc). lia. }
  exists rows'. split; [done|]. split.
  - apply (Hrun _ (DeleteRequest
                      {[ "Key" := StringValue pathKey;
                         "Child" := StringValue last ]})).
    apply sole_first; [apply primaryKey_pair|].
    repeat constructor. simpl. rewrite primaryKey_pair. congruence.
  - apply (Hrun _ (DeleteRequest
                      {[ "Key" := StringValue (pathKey +:+ last);
                         "Child" := StringValue sc ]})).
    apply sole_next.
    + simpl. rewrite primaryKey_pair. congruence.
    + apply sole_first; [apply primaryKey_pair|constructor].
Qed.

End Deletes.

(** X8.  For a key of two parts or more, on a tree with a non-empty
    special character: after a [Delete] that returned nil, the object row
    of the key and the row of its last part under its parent are gone,
    and [Get] of the key returns [ErrNotFound]. *)
Theorem Delete_then_Get {V : Type} `{!Storable V} (budget depth : nat)
    (parent : list string) (last : string) (ob : option V)
    (t t1 : Tree FakeDynamoDB) (calls : list WriteCall) :
  let sc := SpecialCharacter (initOnceDo t) in
  parent ≠ [] → sc ≠ "" →
  is_Some (tables (DB t) !! TableName t) →
  Delete budget (parent ++ [last]) t = (Returns None, t1, calls) →
  faults (DB t1) = [] →
  (∃ rows1,
     tables (DB t1) !! TableName t = Some rows1 ∧
     rows1 !! (sc +:+ strings.Join parent sc +:+ sc, last) = None ∧
     rows1 !! (sc +:+ strings.Join (parent ++ [last]) sc, sc) = None) ∧
  Get (S depth) (parent ++ [last]) ob t1 = (Returns (Some ErrNotFound, ob), t1, []).
Proof.
  intros sc Hparent Hsc [rows Hrows] Hdel Hf1.
  eapply Delete_applied in Hdel as ((HT & HS & HI) & rows1 & Hrows1 & Hedge & Hobj);
    [|done..].
  rewrite initOnceDo_TableName in HT. rewrite initOnceDo_initOnce in HI.
  fold sc in HS, Hedge, Hobj. rewrite Delete_rows_object_row in Hobj by done.
  split; [by eauto|].
  eapply Get_absent; [done|done|rewrite HT; exact Hrows1|by rewrite HS].
Qed.

Lemma Delete_then_Get_witness :
  let t := after (Put 1 ["Accounts"; "12345"] (Some alice) (newTree "" [])) in
  let t1 := after (Delete 2 ["Accounts"; "12345"] t) in
  (Get 1 ["Accounts"; "12345"] (Some blank) t).1.1 = Returns (None, Some alice) ∧
  Get 1 ["Accounts"; "12345"] (Some blank) t1
  = (Returns (Some ErrNotFound, Some blank), t1, []).
Proof.
  intros t t1. split; [by vm_compute|].
  eapply (Delete_then_Get 2 0 ["Accounts"] "12345" (Some blank) t t1).
  - done.
  - by vm_compute.
  - apply (bool_decide_unpack _). by vm_compute.
  - apply run_after. by vm_compute.
  - by vm_compute.
Defined.

(** X9.  [PutLink] does not look at the target.  A link to a path with
    no object row goes through, and [Get] through it returns
    [ErrNotFound]: the state of a link whose target was deleted. *)
Theorem Get_through_dangling_link {V : Type} `{!Storable V} (budget : nat)
    (key target : list string) (ob : option V)
    (t t1 : Tree FakeDynamoDB) (calls : list WriteCall) (rows : Table) :
  let sc := SpecialCharacter (initOnceDo t) in
  key ≠ [] → sc ≠ "Key" → sc ≠ "Child" →
  sc +:+ strings.Join key sc ≠ sc +:+ strings.Join target sc →
  tables (DB t) !! TableName t = Some rows →
  rows !! (sc +:+ strings.Join target sc, sc) = None →
  PutLink budget key target t = (Returns None, t1, calls) →
  faults (DB t1) = [] →
  Get 2 key ob t1 = (Returns (Some ErrNotFound, ob), t1, []).
Proof.
  intros sc Hkey HK HC Hne Hrows Hnone Hlink Hf1.
  apply PutLink_stored with (rows := rows) in Hlink
    as ((HT & HS & HI) & Hvalid & _ & rows1 & Hrows1 & Hrow1 & Hother); [|done..].
  rewrite initOnceDo_TableName in HT. rewrite initOnceDo_initOnce in HI.
  fold sc in HS, Hvalid, Hrow1, Hother.
  pose proof (validKey_nonempty _ _ Hvalid Hkey) as Hsc.
  erewrite Get_row;
    [|done|done|rewrite HT; exact Hrows1|rewrite HS; exact Hrow1
     |apply linkRow_nonempty].
  rewrite HS, linkRow_target. rewrite <-HS at 1 2.
  rewrite linkKey_target by by rewrite HS. rewrite HS.
  eapply Get_absent; [done|done|rewrite HT; exact Hrows1|].
  rewrite HS, Join_genSplit by auto using linkKey_budget.
  by rewrite Hother by done.
Qed.

Lemma Get_through_dangling_link_witness :
  let t1 := after (PutLink 1 ["AccountsByEmail"; "alice@example.com"]
                     ["Accounts"; "12345"] (newTree "" [])) in
  Get 2 ["AccountsByEmail"; "alice@example.com"] (Some blank) t1
  = (Returns (Some ErrNotFound, Some blank), t1, []).
Proof.
  intros t1.
  eapply (Get_through_dangling_link 1 ["AccountsByEmail"; "alice@example.com"]
            ["Accounts"; "12345"] (Some blank) (newTree "" []) t1 _ ∅).
  - done.
  - by vm_compute.
  - by vm_compute.
  - intros Heq. by vm_compute in Heq.
  - reflexivity.
  - apply lookup_empty.
  - apply run_after. by vm_compute.
  - by vm_compute.
Defined.

(** ** Listing *)

Section Listing.
Implicit Types (t : Tree FakeDynamoDB) (rows : Table) (k : string * string).

Lemma edgeRows_app sc pathKey key key' :
  edgeRows sc pathKey (key ++ key')
  = edgeRows sc pathKey key ++ edgeRows sc (pathKey +:+ prefixKey sc key) key'.
Proof.
  revert pathKey. induction key as [|x key IH]; intros pathKey; simpl.
  - by rewrite string_app_nil_r.
  - by rewrite IH, !string_app_assoc.
Qed.

(** The rows of the prefixes of a key lie in partitions with shorter
    names than the partition of its children. *)
Lemma untouched_edgeRows_children sc pathKey key child :
  sc ≠ "" →
  untouched (pathKey +:+ prefixKey sc key +:+ sc, child) (edgeRows sc pathKey key).
Proof.
  intros Hsc. pose proof (string_length_nonempty _ Hsc) as Hlen.
  revert pathKey. induction key as [|x key IH]; intros pathKey; simpl;
    constructor.
  - rewrite requestKey_edgeRow. intros [= Heq _].
    apply (f_equal String.length) in Heq.
    rewrite !string_length_app in Heq. lia.
  - specialize (IH (pathKey +:+ sc +:+ x)).
    rewrite !string_app_assoc in IH. by rewrite !string_app_assoc.
Qed.

Lemma sole_put_middle k item l1 l2 :
  untouched k l1 → primaryKey item = Some k → untouched k l2 →
  sole_put k item (l1 ++ PutRequest item :: l2).
Proof.
  intros Hl1 Hk Hl2. induction Hl1 as [|r l1 Hr Hl1 IH]; simpl.
  - by constructor.
  - by constructor.
Qed.

Lemma partition_single pk rows child item :
  rows !! (pk, child) = Some item →
  (∀ other, other ≠ child → rows !! (pk, other) = None) →
  partition pk rows = [item].
Proof.
  intros Hrow Hnone. unfold partition.
  assert (filter (λ kv : string * string * Item, kv.1.1 = pk) rows
          = {[ (pk, child) := item ]}) as ->.
  { apply map_eq. intros [k c].
    destruct (decide ((pk, child) = (k, c))) as [[= <- <-]|Hne].
    - rewrite lookup_singleton_eq. by apply map_lookup_filter_Some_2.
    - rewrite lookup_singleton_ne by done. apply map_lookup_filter_None_2.
      destruct (decide (k = pk)) as [->|Hk].
      + left. apply Hnone. congruence.
      + right. intros x _. done. }
  by rewrite map_to_list_singleton.
Qed.

(** Listing a partition with one row on a service without faults. *)
Lemma List_single {A} t keyPrefix itemFunc (acc : A) rows child item :
  let sc := SpecialCharacter t in
  initOnce t = true → faults (DB t) = [] →
  tables (DB t) !! TableName t = Some rows →
  partition (sc +:+ strings.Join keyPrefix sc +:+ sc) rows = [item] →
  item !! "Child" ≫= av_S = Some child →
  List keyPrefix itemFunc acc t = (Returns (itemFunc child None acc).2, t, []).
Proof.
  intros sc Hinit Hf Hrows Hpart Hchild. unfold List. rewrite doInit_self_run.
  rewrite (initOnceDo_done _ Hinit).
  unfold mbind, M_bind, bind, callQueryPages.
  cbn [QueryPages api]. unfold queryPages.
  rewrite (next_healthy _ Hf).
  cbn [query_TableName ExpressionAttributeNames ExpressionAttributeValues
       KeyConditionExpression].
  rewrite Hrows, !lookup_singleton_eq. cbn [mbind option_bind av_S StringValue].
  rewrite decide_True by done. fold sc. rewrite Hpart.
  cbn [fst snd eachPage pageFunc Items]. rewrite Hchild.
  unfold sc. rewrite Tree_eta.
  by destruct (itemFunc child None acc) as [[] acc'].
Qed.

End Listing.

(** X10.  The children of a path can be listed.  For a key of two parts
    or more whose parts are free of the special character and whose last
    part is not empty: after a [Put] that returned nil, on a table whose
    partition of the parent had no rows before, [List] of the parent calls
    the callback once, with the last part of the key and no error. *)
Theorem List_parent_after_Put {V : Type} `{!Storable V} {A : Type}
    (budget : nat) (parent : list string) (last : string) (v : V)
    (t t1 : Tree FakeDynamoDB) (calls : list WriteCall)
    (itemFunc : string → option error → A → bool * A) (acc : A) (rows : Table) :
  let sc := SpecialCharacter (initOnceDo t) in
  parent ≠ [] → last ≠ "" →
  tables (DB t) !! TableName t = Some rows →
  (∀ child, rows !! (sc +:+ strings.Join parent sc +:+ sc, child) = None) →
  Put budget (parent ++ [last]) (Some v) t = (Returns None, t1, calls) →
  faults (DB t1) = [] →
  List parent itemFunc acc t1 = (Returns (itemFunc last None acc).2, t1, []).
Proof.
  intros sc Hparent Hlast Hrows Hnone Hput Hf1.
  apply Put_wrote in Hput as [(HT & HS & HI) [[? _]|Hput]]; [done|].
  destruct Hput as (v' & attributes & _ & Hvalid & _ & _ & [_ Hw]).
  rewrite initOnceDo_TableName in HT. rewrite initOnceDo_initOnce in HI.
  fold sc in HS, Hvalid, Hw. rewrite Hrows in Hw.
  destruct Hw as (rows1 & Hrows1 & Hw).
  assert (sc ≠ "") as Hsc.
  { eapply validKey_nonempty; [exact Hvalid|]. by destruct parent. }
  pose proof (string_length_nonempty _ Hsc) as Hlsc.
  pose proof (string_length_nonempty _ Hlast) as Hllast.
  apply Forall_app in Hvalid as [_ Hvlast].
  apply Forall_cons in Hvlast as [Hvlast _].
  set (pk := sc +:+ strings.Join parent sc +:+ sc) in *.
  assert (edgeRows sc "" (parent ++ [last])
          = edgeRows sc "" parent ++ [edgeRow pk last]) as Hedges.
  { rewrite edgeRows_app. cbn [edgeRows]. unfold pk.
    by rewrite string_app_nil_l, prefixKey_Join, string_app_assoc by done. }
  assert (prefixKey sc (parent ++ [last]) = pk +:+ last) as Hobj.
  { rewrite prefixKey_app. cbn [prefixKey]. unfold pk.
    by rewrite prefixKey_Join, string_app_nil_r, !string_app_assoc by done. }
  assert (∀ child, untouched (pk, child) (edgeRows sc "" parent)) as Hup.
  { intros child.
    pose proof (untouched_edgeRows_children sc "" parent child Hsc) as Hu.
    by rewrite string_app_nil_l, prefixKey_Join, string_app_assoc in Hu by done. }
  assert (∀ child,
            untouched (pk, child)
              [PutRequest (objectRow sc (prefixKey sc (parent ++ [last])) attributes)])
    as Huo.
  { intros child. constructor; [|constructor]. simpl.
    rewrite primaryKey_objectRow, Hobj. intros [= Heq _].
    apply (f_equal String.length) in Heq. rewrite string_length_app in Heq. lia. }
  rewrite Hedges, <-app_assoc in Hw. cbn [app] in Hw.
  eapply (List_single t1 parent itemFunc acc rows1 last);
    [done|done|by rewrite HT| |].
  - rewrite HS. fold pk. eapply (partition_single _ _ last).
    + apply (Hw (pk, last)); [done|].
      apply sole_put_middle; [apply Hup|apply primaryKey_pair|apply Huo].
    + intros other Hother. rewrite <-(Hnone other). apply (Hw (pk, other)).
      apply untouched_app. split; [apply Hup|]. constructor; [|apply Huo].
      rewrite requestKey_edgeRow. congruence.
  - by simplify_map_eq.
Qed.

Lemma List_parent_after_Put_witness :
  let t1 := after (Put 1 ["Accounts"; "12345"] (Some alice) (newTree "" [])) in
  let visit := λ (name : string) (err : option error) (seen : list string),
                 (true, seen ++ [name]) in
  List ["Accounts"] visit [] t1 = (Returns ["12345"], t1, []).
Proof.
  intros t1 visit.
  eapply (List_parent_after_Put 1 ["Accounts"] "12345" alice (newTree "" []) t1 _
            visit [] ∅).
  - done.
  - done.
  - reflexivity.
  - intros child. apply lookup_empty.
  - apply run_after. by vm_compute.
  - by vm_compute.
Defined.

(** *** The callback says when to stop *)

Section Visits.
Context {A : Type} (itemFunc : string → option error → A → bool * A).

Lemma pageFunc_stops items item items' (acc acc1 acc2 : A) child :
  pageFunc itemFunc items acc = Some (true, acc1) →
  item !! "Child" ≫= av_S = Some child →
  itemFunc child None acc1 = (false, acc2) →
  pageFunc itemFunc (items ++ item :: items') acc = Some (false, acc2).
Proof.
  intros Hitems Hchild Hstop. revert acc Hitems.
  induction items as [|x items IH]; intros acc; simpl.
  - intros [= ->]. by rewrite Hchild, Hstop.
  - destruct (x !! "Child" ≫= av_S) as [c|]; [|done].
    destruct (itemFunc c None acc) as [[] acc']; [apply IH|done].
Qed.

Lemma eachPage_stops pages page pages' (acc acc1 acc2 : A) :
  eachPage itemFunc pages acc = Some (false, acc1) →
  pageFunc itemFunc (Items page) acc1 = Some (false, acc2) →
  eachPage itemFunc (pages ++ page :: pages') acc = Some (true, acc2).
Proof.
  intros Hpages Hpage. revert acc Hpages.
  induction pages as [|p pages IH]; intros acc; simpl.
  - intros [= ->]. by rewrite Hpage.
  - destruct (pageFunc itemFunc (Items p) acc) as [[[] acc']|]; [apply IH|done..].
Qed.

End Visits.

(** X11.  [List] stops where the callback says so.  When the callback
    went through pages and items and then returns false at an item,
    [List] returns with the state the callback left there: the later
    items of the page and the later pages are not visited, and an error
    of the paging behind them is not reported. *)
Theorem List_stops_at_false {Svc : Type} `{!API Svc} {A : Type}
    (keyPrefix : list string) (itemFunc : string → option error → A → bool * A)
    (acc acc0 acc1 acc2 : A) (t : Tree Svc)
    (pages pages' : list QueryOutput) (items items' : list Item) (item : Item)
    (child : string) (err : option string) (db : Svc) :
  QueryPages (listQuery (initOnceDo t) keyPrefix) (DB (initOnceDo t))
  = (pages ++ {| Items := items ++ item :: items' |} :: pages', err, db) →
  eachPage itemFunc pages acc = Some (false, acc0) →
  pageFunc itemFunc items acc0 = Some (true, acc1) →
  item !! "Child" ≫= av_S = Some child →
  itemFunc child None acc1 = (false, acc2) →
  (List keyPrefix itemFunc acc t).1.1 = Returns acc2.
Proof.
  intros Hquery Hpages Hitems Hchild Hstop.
  unfold List. rewrite doInit_self_run.
  unfold mbind, M_bind, bind, callQueryPages.
  change (QueryPages _ (DB (initOnceDo t)))
    with (QueryPages (listQuery (initOnceDo t) keyPrefix) (DB (initOnceDo t))).
  rewrite Hquery. cbn [fst snd].
  erewrite eachPage_stops; [done|exact Hpages|].
  by eapply pageFunc_stops.
Qed.

Lemma List_stops_at_false_witness :
  let t := after (Put 1 ["Accounts"; "6789"] (Some alice)
                    (after (Put 1 ["Accounts"; "12345"] (Some alice)
                              (newTree "" [])))) in
  let visit := λ (name : string) (err : option error) (seen : list string),
                 (false, seen ++ [name]) in
  (List ["Accounts"] visit [] t).1.1 = Returns ["12345"].
Proof.
  intros t visit.
  assert (∃ item item' db,
            QueryPages (listQuery (initOnceDo t) ["Accounts"]) (DB (initOnceDo t))
            = ([] ++ [{| Items := [] ++ item :: [item'] |}], None, db) ∧
            item !! "Child" ≫= av_S = Some "12345")
    as (item & item' & db & Hquery & Hchild).
  { eexists _, _, _. split; by vm_compute. }
  clearbody t.
  eapply (List_stops_at_false ["Accounts"] visit [] [] [] _ t [] [] [] [item']
            item "12345" None db Hquery); [done|done|exact Hchild|].
  reflexivity.
Defined.

(** ** The creation of the table *)

Section Creation.
Implicit Types (t : Tree FakeDynamoDB).

Lemma CreateTable_eq {Svc} `{!TableAPI Svc} (t : Tree Svc) :
  CreateTable t
  = let t0 := initOnceDo t in
    let r := DBCreateTable
               {| create_TableName := TableName t0;
                  KeySchema := [("Key", "HASH"); ("Child", "RANGE")];
                  AttributeDefinitions := [("Key", "S"); ("Child", "S")];
                  ProvisionedThroughput := (1, 1) |} (DB t0) in
    let t1 := {| TableName := TableName t0; DB := r.2;
                 SpecialCharacter := SpecialCharacter t0;
                 initOnce := initOnce t0 |} in
    (Returns match r.1 with
             | Some e =>
                 if strings.HasPrefix e "ResourceInUseException" then None
                 else Some (ErrAWS e)
             | None => None
             end, t1, []).
Proof.
  unfold CreateTable. rewrite doInit_self_run.
  unfold mbind, M_bind, bind. cbn zeta.
  destruct (DBCreateTable _ _) as [[e|] db]; cbn [fst snd]; [|done].
  by destruct (strings.HasPrefix e _).
Qed.

Lemma createTable_healthy input db :
  faults db = [] →
  createTable input db
  = match tables db !! create_TableName input with
    | Some _ =>
        (Some ("ResourceInUseException: Table already exists: "
                 +:+ create_TableName input), db)
    | None =>
        (None, {| tables := <[create_TableName input := ∅]> (tables db);
                  faults := faults db |})
    end.
Proof. intros Hf. unfold createTable. by rewrite (next_healthy _ Hf). Qed.

Lemma HasPrefix_in_use name :
  strings.HasPrefix ("ResourceInUseException: Table already exists: " +:+ name)
    "ResourceInUseException" = true.
Proof.
  change ("ResourceInUseException: Table already exists: " +:+ name)
    with ("ResourceInUseException" +:+ (": Table already exists: " +:+ name)).
  apply HasPrefix_app.
Qed.

End Creation.

(** X12.  [CreateTable] may be called whether or not the table exists.
    On a service without faults it returns nil; afterwards the table
    exists, with the rows it had if it existed and without rows if it did
    not; the other tables are as before, and a second call returns nil
    and changes nothing. *)
Theorem CreateTable_again (t : Tree FakeDynamoDB) :
  faults (DB t) = [] →
  ∃ t1,
    CreateTable t = (Returns None, t1, []) ∧
    same_config (initOnceDo t) t1 ∧
    tables (DB t1) !! TableName t = Some (default ∅ (tables (DB t) !! TableName t)) ∧
    (∀ tn, tn ≠ TableName t → tables (DB t1) !! tn = tables (DB t) !! tn) ∧
    faults (DB t1) = [] ∧
    CreateTable t1 = (Returns None, t1, []).
Proof.
  intros Hf.
  assert (∀ t' rows, initOnce t' = true → faults (DB t') = [] →
            tables (DB t') !! TableName t' = Some rows →
            CreateTable t' = (Returns None, t', [])) as Hexists.
  { intros t' rows Hinit Hf' Hrows. rewrite CreateTable_eq. cbn zeta.
    rewrite (initOnceDo_done _ Hinit). cbn [DBCreateTable fake_TableAPI].
    rewrite (createTable_healthy _ _ Hf'). cbn [create_TableName].
    rewrite Hrows. cbn [fst snd]. by rewrite HasPrefix_in_use, Tree_eta. }
  assert (initOnce (initOnceDo t) = true) as Hinit by apply initOnceDo_initOnce.
  assert (faults (DB (initOnceDo t)) = []) as Hf0 by by rewrite initOnceDo_DB.
  rewrite CreateTable_eq. cbn zeta. cbn [DBCreateTable fake_TableAPI].
  rewrite (createTable_healthy _ _ Hf0). cbn [create_TableName].
  destruct (tables (DB (initOnceDo t)) !! TableName (initOnceDo t))
    as [rows|] eqn:Hrows; cbn [fst snd].
  - rewrite HasPrefix_in_use, Tree_eta. exists (initOnceDo t).
    split; [done|]. split; [done|].
    pose proof Hrows as Hrows0.
    rewrite initOnceDo_DB, initOnceDo_TableName in Hrows0.
    rewrite initOnceDo_DB, Hrows0. split; [done|]. split; [done|].
    split; [done|]. by apply (Hexists _ rows).
  - rewrite initOnceDo_DB, initOnceDo_TableName in Hrows.
    rewrite ?initOnceDo_DB, ?initOnceDo_TableName, ?Hrows.
    eexists. split; [done|]. split; [split; [|done]; cbn; by rewrite ?initOnceDo_TableName|].
    cbn [DB tables faults TableName].
    split; [by simplify_map_eq|]. split; [by intros; simplify_map_eq|].
    split; [done|]. apply (Hexists _ ∅); cbn [DB tables faults TableName initOnce];
      [done|done|by simplify_map_eq].
Qed.

Lemma CreateTable_again_witness :
  let t := {| TableName := "tree";
              DB := {| tables := ∅; faults := [] |};
              SpecialCharacter := "";
              initOnce := false |} in
  ∃ t1,
    CreateTable t = (Returns None, t1, []) ∧
    same_config (initOnceDo t) t1 ∧
    tables (DB t1) !! "tree" = Some ∅ ∧
    (∀ tn, tn ≠ "tree" → tables (DB t1) !! tn = None) ∧
    faults (DB t1) = [] ∧
    CreateTable t1 = (Returns None, t1, []).
Proof.
  intros t. apply (CreateTable_again t). reflexivity.
Defined.

(** ** Objects and links *)

(** X13.  An object is never taken for a link.  After a [Put] that
    returned nil, [GetLink] of the key returns [ErrNotLink]: the check of
    the attribute names in [Put] keeps the attribute of the link target
    out of object rows. *)
Theorem GetLink_of_object {V : Type} `{!Storable V} (budget : nat)
    (key : list string) (v : V)
    (t t1 : Tree FakeDynamoDB) (calls : list WriteCall) :
  key ≠ [] →
  is_Some (tables (DB t) !! TableName t) →
  Put budget key (Some v) t = (Returns None, t1, calls) →
  faults (DB t1) = [] →
  GetLink key t1 = (Returns ([], Some ErrNotLink), t1, []).
Proof.
  intros Hkey Ht Hput Hf1.
  pose proof Hput as Hw.
  apply Put_wrote in Hw as [_ [[? _]|(v' & attributes & [= <-] & _ & Hm & _)]];
    [done|].
  apply Put_stored with (attributes := attributes) in Hput
    as ((HT & HS & HI) & _ & Hun & rows1 & Hrows1 & Hrow); [|done..].
  rewrite initOnceDo_TableName in HT. rewrite initOnceDo_initOnce in HI.
  erewrite GetLink_row;
    [|done|done|rewrite HT; exact Hrows1|rewrite HS; exact Hrow
     |apply objectRow_nonempty].
  by rewrite HS, (unreserved_no_link _ _ Hun).
Qed.

Lemma GetLink_of_object_witness :
  let t1 := after (Put 1 ["Accounts"; "12345"] (Some alice) (newTree "" [])) in
  GetLink ["Accounts"; "12345"] t1 = (Returns ([], Some ErrNotLink), t1, []).
Proof.
  intros t1.
  apply (GetLink_of_object 1 ["Accounts"; "12345"] alice (newTree "" []) t1
           (Put 1 ["Accounts"; "12345"] (Some alice) (newTree "" [])).2).
  - done.
  - by eexists.
  - apply run_after. by vm_compute.
  - by vm_compute.
Defined.

(** ** Listing after a delete *)

(** X14.  [Delete] takes the last part of the key out of the listing of
    its parent.  On a tree with a non-empty special character, where the
    parent had no other child: after a [Delete] that returned nil, [List]
    of the parent does not call the callback.  The parent may be the
    root. *)
Theorem Delete_then_List {A : Type} (budget : nat) (parent : list string)
    (last : string) (t t1 : Tree FakeDynamoDB) (calls : list WriteCall)
    (itemFunc : string → option error → A → bool * A) (acc : A) (rows : Table) :
  let sc := SpecialCharacter (initOnceDo t) in
  let pathKey := sc +:+ strings.Join parent sc +:+ sc in
  sc ≠ "" →
  tables (DB t) !! TableName t = Some rows →
  (∀ child, child ≠ last → rows !! (pathKey, child) = None) →
  Delete budget (parent ++ [last]) t = (Returns None, t1, calls) →
  faults (DB t1) = [] →
  List parent itemFunc acc t1 = (Returns acc, t1, []).
Proof.
  intros sc pathKey Hsc Hrows Honly Hdel Hf1.
  pose proof Hdel as Hrun.
  eapply Delete_applied in Hdel as ((HT & HS & HI) & rows1 & Hrows1 & Hedge & Hobj);
    [|done..].
  rewrite initOnceDo_TableName in HT. rewrite initOnceDo_initOnce in HI.
  fold sc in HS, Hedge, Hobj. fold pathKey in Hedge, Hobj.
  rewrite Delete_eq in Hrun. cbn zeta in Hrun. fold sc in Hrun.
  rewrite length_app, Nat.add_1_r, take_app_length in Hrun.
  rewrite lookup_app_r, Nat.sub_diag in Hrun by done.
  cbn [lookup list_lookup] in Hrun. fold pathKey in Hrun.
  rewrite initOnceDo_TableName in Hrun.
  apply retryLoop_wrote in Hrun as [_ Hw].
  rewrite initOnceDo_DB, Hrows in Hw. destruct Hw as (rows' & Hrows' & Hw).
  rewrite Hrows1 in Hrows'. injection Hrows' as <-.
  eapply (List_empty t1 parent itemFunc acc rows1); [done|done|by rewrite HT|].
  rewrite HS. fold pathKey. intros child.
  destruct (decide (child = last)) as [->|Hchild]; [done|].
  destruct (decide ((pathKey, child) = (pathKey +:+ last, sc))) as [->|Hne];
    [done|].
  rewrite <-(Honly child Hchild). apply (Hw (pathKey, child)).
  repeat constructor; simpl; rewrite primaryKey_pair; congruence.
Qed.

Lemma Delete_then_List_witness :
  let sc := DefaultSpecialCharacter in
  let rows : Table :=
    {[ (sc +:+ "Accounts" +:+ sc, "12345")
       := {[ "Key" := StringValue (sc +:+ "Accounts" +:+ sc);
             "Child" := StringValue "12345" ]} ]} in
  let t := {| TableName := "tree";
              DB := {| tables := {[ "tree" := rows ]}; faults := [] |};
              SpecialCharacter := ""; initOnce := false |} in
  let visit := λ (name : string) (err : option error) (seen : list string),
                 (true, seen ++ [name]) in
  (List ["Accounts"] visit [] t).1.1 = Returns ["12345"] ∧
  (List ["Accounts"] visit [] (after (Delete 1 ["Accounts"; "12345"] t))).1.1
  = Returns [].
Proof.
  intros sc rows t visit. split; [by vm_compute|].
  erewrite (Delete_then_List 1 ["Accounts"] "12345" t _ _ visit [] rows);
    [done|done|apply lookup_singleton_eq| |apply run_after; by vm_compute
     |by vm_compute].
  intros child Hchild. apply lookup_singleton_ne. congruence.
Defined.

(** ** A write that fails halfway *)

Section Halfway.
Implicit Types (t : Tree FakeDynamoDB) (rows : Table) (l : list WriteRequest).

Lemma processed_nil l : processed [] l = l.
Proof. induction l; simpl; congruence. Qed.

(** One call that the service takes as a whole. *)
Lemma retryLoop_taken budget tn l t rows fs :
  faults (DB t) = Throttle [] :: fs → tables (DB t) !! tn = Some rows →
  0 < length l ≤ 25 → Forall (λ r, is_Some (requestKey r)) l →
  ∃ t',
    retryLoop (S budget) {| RequestItems := {[ tn := l ]} |} t
    = (Returns None, t', cleanCalls tn [l]) ∧
    faults (DB t') = fs ∧ tables (DB t') !! tn = Some (foldl write rows l) ∧
    same_config t t'.
Proof.
  intros Hf Hrows Hlen Hkeys.
  cbn [retryLoop]. unfold mbind, M_bind, bind, callBatchWriteItem.
  cbn [BatchWriteItem api]. unfold batchWriteItem, next. rewrite Hf.
  cbn [RequestItems tables faults].
  rewrite decide_True.
  2:{ split; [apply map_non_empty_singleton|].
      apply map_Forall_singleton. split; [by eexists|]. split; [lia|].
      split; [lia|done]. }
  cbn [UnprocessedItems]. rewrite omap_singleton, unprocessed_nil.
  rewrite decide_True by apply map_size_empty.
  eexists. split; [done|]. cbn [DB faults tables].
  split; [done|]. split; [|done].
  rewrite lookup_merge, Hrows, lookup_singleton_eq. cbn.
  by rewrite processed_nil.
Qed.

(** One call that the service fails. *)
Lemma retryLoop_failed budget input t err fs :
  faults (DB t) = Fail err :: fs →
  ∃ t',
    retryLoop (S budget) input t
    = (Returns (Some (ErrAWS err)), t', [(input, Failed err)]) ∧
    faults (DB t') = fs ∧ tables (DB t') = tables (DB t) ∧ same_config t t'.
Proof.
  intros Hf.
  cbn [retryLoop]. unfold mbind, M_bind, bind, callBatchWriteItem.
  cbn [BatchWriteItem api]. unfold batchWriteItem, next. rewrite Hf.
  by eexists.
Qed.

(** The rows of the prefixes lie in partitions with longer names than
    the path they start from. *)
Lemma untouched_edgeRows_shorter sc pathKey key pk child :
  sc ≠ "" → String.length pk ≤ String.length pathKey →
  untouched (pk, child) (edgeRows sc pathKey key).
Proof.
  intros Hsc. pose proof (string_length_nonempty _ Hsc) as Hlen.
  revert pathKey. induction key as [|x key IH]; intros pathKey Hpk; simpl;
    constructor.
  - rewrite requestKey_edgeRow. intros [= Heq _].
    apply (f_equal String.length) in Heq.
    rewrite !string_length_app in Heq. lia.
  - apply IH. rewrite !string_length_app. lia.
Qed.

(** Every prefix has its row, and one row only. *)
Lemma sole_put_edgeRows sc pathKey key i part :
  sc ≠ "" → key !! i = Some part →
  sole_put (pathKey +:+ prefixKey sc (take i key) +:+ sc, part)
    {[ "Key" := StringValue (pathKey +:+ prefixKey sc (take i key) +:+ sc);
       "Child" := StringValue part ]}
    (edgeRows sc pathKey key).
Proof.
  intros Hsc. pose proof (string_length_nonempty _ Hsc) as Hlen.
  revert pathKey i. induction key as [|x key IH]; intros pathKey i; [done|].
  destruct i as [|i]; simpl.
  - intros [= ->]. rewrite string_app_nil_l. apply sole_here.
    + apply primaryKey_pair.
    + apply untouched_edgeRows_shorter; [done|].
      rewrite !string_length_app. lia.
  - intros Hi. apply sole_later.
    + rewrite requestKey_edgeRow. intros [= Heq _].
      apply (f_equal String.length) in Heq.
      rewrite !string_length_app in Heq. lia.
    + specialize (IH (pathKey +:+ sc +:+ x) i Hi).
      rewrite !string_app_assoc in IH. by rewrite !string_app_assoc.
Qed.

(** One turn of the loop over the chunks. *)
Lemma batchLoop_next {Svc} `{!API Svc} steps budget i writeRequests
    (t t1 : Tree Svc) calls1 :
  i < length writeRequests →
  retryLoop budget
    {| RequestItems := {[ TableName t := take 25 (drop i writeRequests) ]} |} t
  = (Returns None, t1, calls1) →
  batchLoop (S steps) budget i writeRequests t
  = let r := batchLoop steps budget (i + 25) writeRequests t1 in
    (r.1.1, r.1.2, calls1 ++ r.2).
Proof.
  intros Hi Hrun. cbn [batchLoop]. rewrite decide_True by done.
  unfold mbind, M_bind, bind, self. rewrite slice_chunk, Hrun.
  by destruct (batchLoop steps budget (i + 25) writeRequests t1) as [[] ].
Qed.

Lemma batchLoop_stops {Svc} `{!API Svc} steps budget i writeRequests
    (t t1 : Tree Svc) calls1 err :
  i < length writeRequests →
  retryLoop budget
    {| RequestItems := {[ TableName t := take 25 (drop i writeRequests) ]} |} t
  = (Returns (Some err), t1, calls1) →
  batchLoop (S steps) budget i writeRequests t
  = (Returns (Some err), t1, calls1).
Proof.
  intros Hi Hrun. cbn [batchLoop]. rewrite decide_True by done.
  unfold mbind, M_bind, bind, self. rewrite slice_chunk, Hrun.
  unfold ret. by rewrite app_nil_r.
Qed.

End Halfway.

(** X15.  [Put] is not undone when it fails.  For a valid key of 25 parts
    or more the rows go out in two chunks or more; when the service takes
    the first chunk and fails the second call, [Put] returns that error
    after these two calls, the rows of the first 25 prefixes are stored,
    and the object row is as it was: the directories are there without
    the object. *)
Theorem Put_fails_halfway {V : Type} `{!Storable V} (budget : nat)
    (key : list string) (v : V) (attributes : Item) (t : Tree FakeDynamoDB)
    (rows : Table) (err : string) (fs : list Fault) :
  let sc := SpecialCharacter (initOnceDo t) in
  validKey sc key → 25 ≤ length key →
  MarshalDynamoDB v = (Some attributes, None) →
  unreserved sc (objectRow sc (prefixKey sc key) attributes) →
  tables (DB t) !! TableName t = Some rows →
  faults (DB t) = Throttle [] :: Fail err :: fs →
  ∃ t1 calls rows1,
    Put (S budget) key (Some v) t = (Returns (Some (ErrAWS err)), t1, calls) ∧
    length calls = 2 ∧
    tables (DB t1) !! TableName t = Some rows1 ∧
    (∀ i part, i < 25 → key !! i = Some part →
       rows1 !! (prefixKey sc (take i key) +:+ sc, part)
       = Some {[ "Key" := StringValue (prefixKey sc (take i key) +:+ sc);
                 "Child" := StringValue part ]}) ∧
    rows1 !! (prefixKey sc key, sc) = rows !! (prefixKey sc key, sc).
Proof.
  intros sc Hvalid Hlen Hm Hun Hrows Hf.
  assert (sc ≠ "") as Hsc.
  { eapply validKey_nonempty; [exact Hvalid|]. destruct key; [simpl in Hlen; lia|done]. }
  rewrite Put_eq. cbn zeta. fold sc.
  rewrite (pathLoop_valid _ _ _ _ Hvalid), Hm, string_app_nil_l.
  rewrite decide_True by done. cbn [app].
  set (stored := objectRow sc (prefixKey sc key) attributes).
  set (writeRequests := edgeRows sc "" key ++ [PutRequest stored]).
  assert (length writeRequests = length key + 1) as Hwr.
  { unfold writeRequests. by rewrite length_app, length_edgeRows. }
  assert (take 25 writeRequests = edgeRows sc "" (take 25 key)) as Hfirst.
  { unfold writeRequests.
    rewrite <-(take_drop 25 key) at 1. rewrite edgeRows_app, <-app_assoc.
    rewrite take_app_length'; [done|].
    rewrite length_edgeRows, length_take. lia. }
  assert (Forall (λ r, is_Some (requestKey r)) (take 25 writeRequests)) as Hkeys.
  { rewrite Hfirst. apply edgeRows_keys. }
  assert (length (take 25 writeRequests) = 25) as Hlen25.
  { rewrite length_take. lia. }
  destruct (length writeRequests) as [|[|steps]] eqn:Hsteps; [lia..|].
  destruct (retryLoop_taken budget (TableName (initOnceDo t))
              (take 25 (drop 0 writeRequests)) (initOnceDo t) rows
              (Fail err :: fs))
    as (t1 & Hrun1 & Hf1 & Hrows1 & Hcfg1).
  { by rewrite initOnceDo_DB. }
  { by rewrite initOnceDo_DB, initOnceDo_TableName. }
  { rewrite drop_0. lia. }
  { by rewrite drop_0. }
  destruct (retryLoop_failed budget
              {| RequestItems :=
                   {[ TableName t1 := take 25 (drop (0 + 25) writeRequests) ]} |}
              t1 err fs Hf1)
    as (t2 & Hrun2 & _ & Htables2 & Hcfg2).
  erewrite batchLoop_next; [|lia|exact Hrun1].
  erewrite batchLoop_stops; [|lia|exact Hrun2].
  cbn [fst snd].
  eexists _, _, _. split; [done|]. split; [done|].
  rewrite Htables2. destruct Hcfg1 as (HT1 & _).
  rewrite initOnceDo_TableName in Hrows1. rewrite drop_0, Hfirst in Hrows1.
  split; [exact Hrows1|]. split.
  - intros i part Hi Hpart.
    apply foldl_write_sole.
    pose proof (sole_put_edgeRows sc "" (take 25 key) i part Hsc) as Hsole.
    rewrite string_app_nil_l, take_take, Nat.min_l in Hsole by lia.
    apply Hsole. by rewrite lookup_take_lt.
  - apply foldl_write_untouched, untouched_edgeRows.
    by apply Forall_take.
Qed.

Lemma Put_fails_halfway_witness :
  let sc := DefaultSpecialCharacter in
  let key := replicate 25 "X" in
  let t := newTree "" [Throttle []; Fail "InternalServerError"] in
  ∃ t1 calls rows1,
    Put 1 key (Some alice) t
    = (Returns (Some (ErrAWS "InternalServerError")), t1, calls) ∧
    length calls = 2 ∧
    tables (DB t1) !! "tree" = Some rows1 ∧
    rows1 !! (sc, "X")
    = Some {[ "Key" := StringValue sc; "Child" := StringValue "X" ]} ∧
    rows1 !! (prefixKey sc key, sc) = None.
Proof.
  intros sc key t.
  destruct (Put_fails_halfway 0 key alice
              {[ "ID" := StringValue "12345"; "Name" := StringValue "alice";
                 "MarshalFailPlease" :=
                   {| av_S := None; av_N := None; av_BOOL := Some false |} ]}
              t ∅ "InternalServerError" [])
    as (t1 & calls & rows1 & Hput & Hcalls & Hrows1 & Hedge & Hobj).
  - apply Forall_forall. intros part Hpart%elem_of_replicate.
    destruct Hpart as [-> _]. by vm_compute.
  - by vm_compute.
  - reflexivity.
  - by_compute.
  - reflexivity.
  - reflexivity.
  - exists t1, calls, rows1. split; [exact Hput|]. split; [exact Hcalls|].
    split; [exact Hrows1|]. split; [|exact Hobj].
    apply (Hedge 0 "X"); [lia|done].
Defined.
